(** * Dimuon analysis: event selection, cutflow and driver

    A shallow embedding of [src/Analysis.cpp] and [src/main.cpp] of the
    dimuon example.  The analysis is a ROOT RDataFrame chain: columns are
    declared with [Define], rows are dropped by named [Filter]s, and the
    event loop fills histograms and the cutflow report.  The embedding
    keeps the per-row lambdas as functions on an [Event] record, the
    exceptions thrown by the RVec operators as a [result] type, and the
    event loop as explicit state passing over the filter counters. *)

From Stdlib Require Import Ascii String.
From Stdlib Require Import ZArith List Bool Lia Permutation Sorted.
From Stdlib Require Import QArith Qabs.
From Stdlib Require Import Floats.SpecFloat.
Import ListNotations.

Local Open Scope Z_scope.

(** ** Outcomes of a computation

    [Throw] is a C++ exception derived from [std::exception] (the RVec
    operators throw [std::runtime_error]); [Undefined] is an unchecked
    element access outside the vector, which the language leaves
    undefined. *)

Inductive result (A : Type) : Type :=
| Ok (a : A)
| Throw (what : string)
| Undefined.

Arguments Ok {A} a.
Arguments Throw {A} what.
Arguments Undefined {A}.

Definition bind {A B : Type} (c : result A) (k : A -> result B) : result B :=
  match c with
  | Ok a => k a
  | Throw w => Throw w
  | Undefined => Undefined
  end.

Declare Scope result_scope.
Delimit Scope result_scope with result.
Notation "x <- c ;; k" := (bind c (fun x => k))
  (at level 100, c at next level, right associativity) : result_scope.
Local Open Scope result_scope.

Definition is_ok {A : Type} (c : result A) : bool :=
  match c with Ok _ => true | _ => false end.

(** ** Machine integers

    [Int_t] is a 32-bit two's-complement integer; [unsigned int] is 32
    bits wide.  Values are carried as [Z] and every arithmetic result is
    brought back into range. *)

Definition Int_min : Z := - 2 ^ 31.
Definition Int_max : Z := 2 ^ 31 - 1.

Definition wrap_int (z : Z) : Z := (z + 2 ^ 31) mod 2 ^ 32 - 2 ^ 31.

Definition int_add (a b : Z) : Z := wrap_int (a + b).
Definition int_mul (a b : Z) : Z := wrap_int (a * b).

Definition in_Int (z : Z) : Prop := Int_min <= z <= Int_max.

(** Conversion of a [Long64_t] to [unsigned int]. *)
Definition to_unsigned_int (z : Z) : Z := z mod 2 ^ 32.

(** ** Single-precision values

    [Float_t] is IEEE-754 binary32.  Only comparisons and [abs] are applied
    to these values by the selection, and both are exact. *)

Abbreviation Float_t := spec_float (only parsing).

Definition float_prec : Z := 24.
Definition float_emax : Z := 128.

(** A binary32 datum in canonical form (mantissa and exponent in range). *)
Definition valid_float (x : Float_t) : bool :=
  valid_binary float_prec float_emax x.

(** Zeros and finite values, as opposed to infinities and NaN. *)
Definition is_number (x : Float_t) : bool :=
  match x with
  | S754_zero _ | S754_finite _ _ _ => true
  | _ => false
  end.

Definition binary32_number (x : Float_t) : bool :=
  valid_float x && is_number x.

(** The value of a binary32 number times [2 ^ 149], an integer, and the
    value as a rational. *)
Definition scaled (x : Float_t) : Z :=
  match x with
  | S754_finite s m e => cond_Zopp s (Zpos m) * 2 ^ (e + 149)
  | _ => 0
  end.

Definition float_value (x : Float_t) : Q := scaled x # (2 ^ 149).

(** The literals [20.0f], [2.4f] and [0.15f]: the binary32 values nearest
    to the decimal constants. *)
Definition lit_20_0f : Float_t := S754_finite false 10485760 (-19).
Definition lit_2_4f : Float_t := S754_finite false 10066330 (-22).
Definition lit_0_15f : Float_t := S754_finite false 10066330 (-26).

(** The binary32 value nearest to an integer. *)
Definition float_of_Z (z : Z) : Float_t :=
  binary_normalize float_prec float_emax z 0 false.

(** ** ROOT::VecOps::RVec

    The operators used by the selection, following [ROOT/RVec.hxx]:
    comparisons against a scalar and the logical operators return an
    [RVec<int>] of zeros and ones; a logical operator on two vectors and
    the indexing by a condition vector throw [std::runtime_error] when the
    sizes differ; [operator[]] with an integer does no bounds check. *)

Module RVec.

Definition truthy (z : Z) : bool := negb (z =? 0).

Definition gt_scalar (v : list Float_t) (y : Float_t) : list Z :=
  map (fun x => Z.b2z (SFltb y x)) v.

Definition lt_scalar (v : list Float_t) (y : Float_t) : list Z :=
  map (fun x => Z.b2z (SFltb x y)) v.

Definition abs (v : list Float_t) : list Float_t := map SFabs v.

Definition logical_and {A B : Type} (ta : A -> bool) (tb : B -> bool)
    (v0 : list A) (v1 : list B) : result (list Z) :=
  if Nat.eqb (length v0) (length v1)
  then Ok (map (fun p => Z.b2z (ta (fst p) && tb (snd p))) (combine v0 v1))
  else Throw "Cannot call operator && on vectors of different sizes."%string.

Definition Sum (v : list Z) : Z := fold_left int_add v 0.

Definition mask {A : Type} (v : list A) (conds : list Z) : result (list A) :=
  if Nat.eqb (length v) (length conds)
  then Ok (map fst (filter (fun p => truthy (snd p)) (combine v conds)))
  else Throw "Cannot index RVec with condition vector of different size"%string.

Definition at_ {A : Type} (v : list A) (i : nat) : result A :=
  match nth_error v i with
  | Some x => Ok x
  | None => Undefined
  end.

End RVec.

(** ** Event records

    One row of the [Events] tree: the trigger flags, the jet count and the
    per-muon branches read by the chain. *)

Record Event : Type := mkEvent {
  HLT_IsoMu24 : bool;
  HLT_IsoMu18 : bool;
  nJet : Z;
  Muon_pt : list Float_t;
  Muon_eta : list Float_t;
  Muon_phi : list Float_t;
  Muon_mass : list Float_t;
  Muon_charge : list Z;
  Muon_tightId : list bool;
  Muon_pfRelIso04_all : list Float_t
}.

(** ** applyTriggerSelection *)

Definition passTrigger (e : Event) : bool :=
  HLT_IsoMu24 e || HLT_IsoMu18 e.

Definition trigger_label : string :=
  "Trigger selection (HLT_IsoMu24 || HLT_IsoMu18)"%string.

(** ** applyMuonSelection *)

Definition goodMuon_mask_fn (pt eta : list Float_t) (tightId : list bool)
    (pfRelIso04_all : list Float_t) : result (list Z) :=
  m1 <- RVec.logical_and RVec.truthy RVec.truthy
          (RVec.gt_scalar pt lit_20_0f)
          (RVec.lt_scalar (RVec.abs eta) lit_2_4f) ;;
  m2 <- RVec.logical_and RVec.truthy (fun b : bool => b) m1 tightId ;;
  RVec.logical_and RVec.truthy RVec.truthy m2
    (RVec.lt_scalar pfRelIso04_all lit_0_15f).

Definition goodMuon_mask (e : Event) : result (list Z) :=
  goodMuon_mask_fn (Muon_pt e) (Muon_eta e) (Muon_tightId e)
    (Muon_pfRelIso04_all e).

Definition nGoodMuon_fn (mask : list Z) : Z := wrap_int (RVec.Sum mask).

Definition nGoodMuon (e : Event) : result Z :=
  mask <- goodMuon_mask e ;; Ok (nGoodMuon_fn mask).

Definition goodMuon_pt (e : Event) : result (list Float_t) :=
  mask <- goodMuon_mask e ;; RVec.mask (Muon_pt e) mask.
Definition goodMuon_eta (e : Event) : result (list Float_t) :=
  mask <- goodMuon_mask e ;; RVec.mask (Muon_eta e) mask.
Definition goodMuon_phi (e : Event) : result (list Float_t) :=
  mask <- goodMuon_mask e ;; RVec.mask (Muon_phi e) mask.
Definition goodMuon_mass (e : Event) : result (list Float_t) :=
  mask <- goodMuon_mask e ;; RVec.mask (Muon_mass e) mask.
Definition goodMuon_charge (e : Event) : result (list Z) :=
  mask <- goodMuon_mask e ;; RVec.mask (Muon_charge e) mask.

(** ** applyDimuonSelection *)

Definition twoMuons_label : string := "Exactly 2 good muons"%string.
Definition oppSign_label : string := "Opposite-sign muons"%string.

Definition twoMuons (e : Event) : result bool :=
  n <- nGoodMuon e ;; Ok (n =? 2).

Definition oppSign_fn (charge : list Z) : result bool :=
  c0 <- RVec.at_ charge 0 ;;
  c1 <- RVec.at_ charge 1 ;;
  Ok (int_mul c0 c1 <? 0).

Definition oppSign (e : Event) : result bool :=
  charge <- goodMuon_charge e ;; oppSign_fn charge.

(** ** calculateInvariantMass

    The arguments handed to one [ROOT::Math::PtEtaPhiMVector]. *)

Record PtEtaPhiM : Type := mkPtEtaPhiM {
  fPt : Float_t;
  fEta : Float_t;
  fPhi : Float_t;
  fM : Float_t
}.

(** The values one selected row contributes to the four histograms. *)
Record Fill : Type := mkFill {
  fill_nJet : Z;
  fill_muon1_pt : Float_t;
  fill_muon2_pt : Float_t;
  fill_dimuon_mass : Float_t
}.

(** ** The configuration of [include/Analysis.h] *)

Record AnalysisConfig : Type := mkConfig {
  inputFile : string;
  outputFile : string;
  outputDir : string;
  maxEvents : option Z
}.

(** ** Filter counters and the cutflow report

    Every named filter of an RDataFrame keeps the number of rows it
    accepted and rejected; [Report] lists, per filter and in booking
    order, its name, [pass = accepted] and [all = accepted + rejected]. *)

Record FilterCounter : Type := mkCounter {
  accepted : Z;
  rejected : Z
}.

Record LoopState : Type := mkState {
  cnt_trigger : FilterCounter;
  cnt_twoMuons : FilterCounter;
  cnt_oppSign : FilterCounter;
  fills : list Fill
}.

Record CutInfo : Type := mkCut {
  cut_name : string;
  cut_pass : Z;
  cut_all : Z
}.

Definition no_count : FilterCounter := mkCounter 0 0.
Definition init_state : LoopState := mkState no_count no_count no_count [].

Definition accept (c : FilterCounter) : FilterCounter :=
  mkCounter (accepted c + 1) (rejected c).
Definition reject (c : FilterCounter) : FilterCounter :=
  mkCounter (accepted c) (rejected c + 1).

Definition add_counter (a b : FilterCounter) : FilterCounter :=
  mkCounter (accepted a + accepted b) (rejected a + rejected b).

(** Merge of the per-slot states after a multi-threaded loop. *)
Definition merge_states (a b : LoopState) : LoopState :=
  mkState (add_counter (cnt_trigger a) (cnt_trigger b))
          (add_counter (cnt_twoMuons a) (cnt_twoMuons b))
          (add_counter (cnt_oppSign a) (cnt_oppSign b))
          (fills a ++ fills b).

Definition cut_of (name : string) (c : FilterCounter) : CutInfo :=
  mkCut name (accepted c) (accepted c + rejected c).

Definition Report (st : LoopState) : list CutInfo :=
  [ cut_of trigger_label (cnt_trigger st);
    cut_of twoMuons_label (cnt_twoMuons st);
    cut_of oppSign_label (cnt_oppSign st) ].

(** Where a row ends in the chain. *)
Inductive RowOutcome : Type :=
| FailTrigger
| FailTwoMuons
| FailOppSign
| Selected (f : Fill).

Definition record_row (st : LoopState) (o : RowOutcome) : LoopState :=
  match o with
  | FailTrigger =>
      mkState (reject (cnt_trigger st)) (cnt_twoMuons st) (cnt_oppSign st)
              (fills st)
  | FailTwoMuons =>
      mkState (accept (cnt_trigger st)) (reject (cnt_twoMuons st))
              (cnt_oppSign st) (fills st)
  | FailOppSign =>
      mkState (accept (cnt_trigger st)) (accept (cnt_twoMuons st))
              (reject (cnt_oppSign st)) (fills st)
  | Selected f =>
      mkState (accept (cnt_trigger st)) (accept (cnt_twoMuons st))
              (accept (cnt_oppSign st)) (fills st ++ [f])
  end.

(** ** RDataFrame::Range

    [Range(unsigned int begin, unsigned int end, unsigned int stride = 1)]
    keeps the entries [begin .. end - 1]; [end = 0] stands for the end of
    the dataset.  The call throws when implicit multi-threading is on or
    when [end] is neither zero nor at least [begin]. *)

Definition Range {A : Type} (implicitMT : bool) (begin_ end_ : Z)
    (rows : list A) : result (list A) :=
  if implicitMT
  then Throw "Range was called with ImplicitMT enabled"%string
  else if negb (end_ =? 0) && (end_ <? begin_)
  then Throw "Range: end must be greater than begin"%string
  else if end_ =? 0
  then Ok (skipn (Z.to_nat begin_) rows)
  else Ok (skipn (Z.to_nat begin_) (firstn (Z.to_nat end_) rows)).

(** ** The outside world of one run

    [tree] answers the opening of the [Events] tree of a file ([None]:
    the file or the tree is missing and the constructor throws);
    [slots] is the way the implicit multi-threading hands the entries of
    a dataset to its processing slots. *)

Record World : Type := mkWorld {
  tree : string -> option (list Event);
  slots : list Event -> list (list Event)
}.

(** Every entry is handed to exactly one slot. *)
Definition fair_slots (w : World) : Prop :=
  forall rows, Permutation (concat (slots w rows)) rows.

(** What one execution of [run] leaves behind. *)
Record RunSummary : Type := mkSummary {
  implicitMT : bool;
  entries : list Event;
  final : LoopState
}.

(** ** getopt_long

    One return of [getopt_long]: the option character and [optarg]. *)

Record GetoptReturn : Type := mkGetopt {
  opt : Z;
  optarg : string
}.

Definition chr (c : Ascii.ascii) : Z := Z.of_N (Ascii.N_of_ascii c).

Inductive ParseOutcome : Type :=
| Return (config : AnalysisConfig)
| Exit (code : Z).

Definition default_config : AnalysisConfig :=
  mkConfig "data.root"%string "output.root"%string "."%string None.

Section Analysis.

(** [static_cast<float>((mu1 + mu2).M())]: the sum of the two vectors
    and its mass are evaluated by ROOT::Math in double precision and the
    result is narrowed to [float].  The selection and the counters do
    not depend on the value. *)
Variable pair_mass : PtEtaPhiM -> PtEtaPhiM -> Float_t.

(** [std::atoll] of the C library. *)
Variable atoll : string -> Z.

Definition dimuon_mass_fn (pt eta phi mass : list Float_t)
    : result Float_t :=
  pt0 <- RVec.at_ pt 0 ;;
  eta0 <- RVec.at_ eta 0 ;;
  phi0 <- RVec.at_ phi 0 ;;
  mass0 <- RVec.at_ mass 0 ;;
  pt1 <- RVec.at_ pt 1 ;;
  eta1 <- RVec.at_ eta 1 ;;
  phi1 <- RVec.at_ phi 1 ;;
  mass1 <- RVec.at_ mass 1 ;;
  Ok (pair_mass (mkPtEtaPhiM pt0 eta0 phi0 mass0)
                (mkPtEtaPhiM pt1 eta1 phi1 mass1)).

Definition dimuon_mass (e : Event) : result Float_t :=
  pt <- goodMuon_pt e ;;
  eta <- goodMuon_eta e ;;
  phi <- goodMuon_phi e ;;
  mass <- goodMuon_mass e ;;
  dimuon_mass_fn pt eta phi mass.

Definition muon1_pt (e : Event) : result Float_t :=
  pt <- goodMuon_pt e ;; RVec.at_ pt 0.

Definition muon2_pt (e : Event) : result Float_t :=
  pt <- goodMuon_pt e ;; RVec.at_ pt 1.

(** ** bookHistograms: the values filled for a row that passed *)

Definition fill_row (e : Event) : result Fill :=
  p1 <- muon1_pt e ;;
  p2 <- muon2_pt e ;;
  m <- dimuon_mass e ;;
  Ok (mkFill (nJet e) p1 p2 m).

(** ** One row through the chain

    Columns are computed on demand: a filter is evaluated only for the
    rows that passed the filters before it, and a column only when a
    filter or a histogram reached by the row reads it. *)

Definition eval_row (e : Event) : result RowOutcome :=
  if negb (passTrigger e) then Ok FailTrigger
  else
    two <- twoMuons e ;;
    if negb two then Ok FailTwoMuons
    else
      opp <- oppSign e ;;
      if negb opp then Ok FailOppSign
      else f <- fill_row e ;; Ok (Selected f).

Definition step (st : LoopState) (e : Event) : result LoopState :=
  o <- eval_row e ;; Ok (record_row st o).

Fixpoint event_loop (rows : list Event) (st : LoopState)
    : result LoopState :=
  match rows with
  | [] => Ok st
  | e :: rest => st' <- step st e ;; event_loop rest st'
  end.

(** The multi-threaded loop: every slot starts from empty counters and
    the slots are merged at the end. *)
Fixpoint run_slots (parts : list (list Event)) : result LoopState :=
  match parts with
  | [] => Ok init_state
  | p :: rest =>
      s <- event_loop p init_state ;;
      r <- run_slots rest ;;
      Ok (merge_states s r)
  end.

(** ** DimuonAnalysis::run *)

Definition run (config : AnalysisConfig) (w : World) : result RunSummary :=
  let mt := match maxEvents config with None => true | Some _ => false end in
  df <- match tree w (inputFile config) with
        | Some rows => Ok rows
        | None => Throw "RDataFrame: could not open the input"%string
        end ;;
  node <- match maxEvents config with
          | Some n => Range mt 0 (to_unsigned_int n) df
          | None => Ok df
          end ;;
  st <- (if mt then run_slots (slots w node)
         else event_loop node init_state) ;;
  Ok (mkSummary mt node st).

(** ** parseArgs *)

Definition set_inputFile (c : AnalysisConfig) (s : string) :=
  mkConfig s (outputFile c) (outputDir c) (maxEvents c).
Definition set_outputFile (c : AnalysisConfig) (s : string) :=
  mkConfig (inputFile c) s (outputDir c) (maxEvents c).
Definition set_outputDir (c : AnalysisConfig) (s : string) :=
  mkConfig (inputFile c) (outputFile c) s (maxEvents c).
Definition set_maxEvents (c : AnalysisConfig) (n : Z) :=
  mkConfig (inputFile c) (outputFile c) (outputDir c) (Some n).

(** The [while] loop over the returns of [getopt_long]; the end of the
    list is the return [-1]. *)
Fixpoint parse_loop (rs : list GetoptReturn) (config : AnalysisConfig)
    : ParseOutcome :=
  match rs with
  | [] => Return config
  | r :: rest =>
      if opt r =? chr "i"%char
      then parse_loop rest (set_inputFile config (optarg r))
      else if opt r =? chr "o"%char
      then parse_loop rest (set_outputFile config (optarg r))
      else if opt r =? chr "d"%char
      then parse_loop rest (set_outputDir config (optarg r))
      else if opt r =? chr "n"%char
      then parse_loop rest (set_maxEvents config (atoll (optarg r)))
      else Exit (if opt r =? chr "h"%char then 0 else 1)
  end.

Definition parseArgs (rs : list GetoptReturn) : ParseOutcome :=
  parse_loop rs default_config.

(** ** main *)

Definition main (rs : list GetoptReturn) (w : World) : result Z :=
  match parseArgs rs with
  | Exit code => Ok code
  | Return config =>
      match run config w with
      | Ok _ => Ok 0
      | Throw _ => Ok 1
      | Undefined => Undefined
      end
  end.

End Analysis.

(** ** Reference formulations used in the statements *)

(** The quality criteria on one muon: pt > 20, |eta| < 2.4, tight
    identification, isolation < 0.15. *)
Definition good_muon (pt eta : Float_t) (tightId : bool) (iso : Float_t)
    : bool :=
  SFltb lit_20_0f pt && SFltb (SFabs eta) lit_2_4f && tightId
  && SFltb iso lit_0_15f.

Fixpoint elementwise_good (pt eta : list Float_t) (tightId : list bool)
    (iso : list Float_t) : list Z :=
  match pt, eta, tightId, iso with
  | p :: pt', e :: eta', t :: tightId', i :: iso' =>
      Z.b2z (good_muon p e t i) :: elementwise_good pt' eta' tightId' iso'
  | _, _, _, _ => []
  end.

(** Number of true entries of a mask. *)
Definition true_count (mask : list Z) : Z :=
  Z.of_nat (List.length (filter RVec.truthy mask)).

(** A mask holds zeros and ones only. *)
Definition is_mask (v : list Z) : Prop := Forall (fun z => z = 0 \/ z = 1) v.

(** The muon branches of a row have one length. *)
Definition aligned_muons (e : Event) : Prop :=
  List.length (Muon_eta e) = List.length (Muon_pt e) /\
  List.length (Muon_tightId e) = List.length (Muon_pt e) /\
  List.length (Muon_pfRelIso04_all e) = List.length (Muon_pt e).

(** The vectors of a row fit an RVec, whose size is a 32-bit [int]. *)
Definition well_sized (e : Event) : Prop :=
  Z.of_nat (List.length (Muon_pt e)) <= Int_max.

(** Positions of the true entries of a mask, in increasing order. *)
Fixpoint true_positions (conds : list Z) : list nat :=
  match conds with
  | [] => []
  | c :: cs =>
      (if RVec.truthy c then [0%nat] else []) ++ map S (true_positions cs)
  end.

(** A correctly rounded binary32 quotient of two small integers, used to
    write decimal values in the examples. *)
Definition float_ratio (n d : Z) : Float_t :=
  SFdiv float_prec float_emax (float_of_Z n) (float_of_Z d).

(** Two good muons of opposite charge, both triggers fired. *)
Definition scenario1 : Event :=
  mkEvent true true 2
    [float_of_Z 45; float_of_Z 40]
    [float_ratio 1 10; float_ratio (-1) 10]
    [float_of_Z 0; float_ratio 355 113]
    [float_ratio 105 1000; float_ratio 105 1000]
    [1; -1]
    [true; true]
    [float_ratio 1 100; float_ratio 2 100].

Definition zero_mass (a b : PtEtaPhiM) : Float_t := S754_zero false.

(** The same muons with both trigger flags clear. *)
Definition scenario2 : Event :=
  mkEvent false false 2
    (Muon_pt scenario1) (Muon_eta scenario1) (Muon_phi scenario1)
    (Muon_mass scenario1) (Muon_charge scenario1) (Muon_tightId scenario1)
    (Muon_pfRelIso04_all scenario1).

(** Three muons pass the quality criteria. *)
Definition scenario3 : Event :=
  mkEvent true false 1
    [float_of_Z 45; float_of_Z 40; float_of_Z 30]
    [float_ratio 1 10; float_ratio (-1) 10; float_ratio 1 2]
    [float_of_Z 0; float_ratio 355 113; float_of_Z 1]
    [float_ratio 105 1000; float_ratio 105 1000; float_ratio 105 1000]
    [1; -1; 1]
    [true; true; true]
    [float_ratio 1 100; float_ratio 2 100; float_ratio 3 100].

(** Two good muons of equal charge. *)
Definition scenario4 : Event :=
  mkEvent false true 0
    (Muon_pt scenario1) (Muon_eta scenario1) (Muon_phi scenario1)
    (Muon_mass scenario1) [1; 1] (Muon_tightId scenario1)
    (Muon_pfRelIso04_all scenario1).

(** A soft muon between two good ones, the second good one carrying the
    larger momentum. *)
Definition soft_middle : Event :=
  mkEvent true false 3
    [float_of_Z 40; float_of_Z 10; float_of_Z 45]
    [float_ratio 1 10; float_of_Z 0; float_ratio (-1) 10]
    [float_of_Z 0; float_of_Z 1; float_ratio 355 113]
    [float_ratio 105 1000; float_ratio 105 1000; float_ratio 105 1000]
    [1; 1; -1]
    [true; true; true]
    [float_ratio 1 100; float_ratio 1 100; float_ratio 2 100].

Definition demo_rows : list Event :=
  [scenario1; scenario2; scenario3; scenario4; soft_middle].

(** A world with one dataset, handed to two slots. *)
Definition two_slots (rows : list Event) : list (list Event) :=
  [firstn 2 rows; skipn 2 rows].

Definition demo_world : World := mkWorld (fun _ => Some demo_rows) two_slots.

(** The same dataset with the entries handed to one slot in reverse. *)
Definition reversed_world : World :=
  mkWorld (fun _ => Some demo_rows) (fun rows => [rev rows]).

Definition limit_config (n : Z) : AnalysisConfig :=
  mkConfig "data.root"%string "output.root"%string "."%string (Some n).

Definition summary_of (r : result RunSummary) : RunSummary :=
  match r with
  | Ok s => s
  | _ => mkSummary false [] init_state
  end.

Definition demo_summary : RunSummary :=
  Eval vm_compute in summary_of (run zero_mass default_config demo_world).

Definition demo_summary_zero : RunSummary :=
  Eval vm_compute in summary_of (run zero_mass (limit_config 0) demo_world).

Definition demo_summary_three : RunSummary :=
  Eval vm_compute in summary_of (run zero_mass (limit_config 3) demo_world).

Definition simple_atoll (s : string) : Z :=
  if String.eqb s "0" then 0 else 3.

(** A filter expression that evaluated to true. *)
Definition holds (r : result bool) : bool :=
  match r with Ok true => true | _ => false end.

(** Rows that reached and passed each filter of the chain. *)
Definition passed_trigger (e : Event) : bool := passTrigger e.
Definition passed_twoMuons (e : Event) : bool :=
  passed_trigger e && holds (twoMuons e).
Definition passed_oppSign (e : Event) : bool :=
  passed_twoMuons e && holds (oppSign e).

Definition count_rows (f : Event -> bool) (rows : list Event) : Z :=
  Z.of_nat (List.length (filter f rows)).

(** The cutflow expected of a loop over [rows]. *)
Definition expected_cutflow (rows : list Event) : list CutInfo :=
  [ mkCut trigger_label (count_rows passed_trigger rows)
      (Z.of_nat (List.length rows));
    mkCut twoMuons_label (count_rows passed_twoMuons rows)
      (count_rows passed_trigger rows);
    mkCut oppSign_label (count_rows passed_oppSign rows)
      (count_rows passed_twoMuons rows) ].

(** The counters printed after a loop, when the loop completed. *)
Definition cutflow (r : result LoopState) : option (list CutInfo) :=
  match r with
  | Ok st => Some (Report st)
  | _ => None
  end.

Definition run_cutflow (r : result RunSummary) : option (list CutInfo) :=
  match r with
  | Ok s => Some (Report (final s))
  | _ => None
  end.

(** Elementwise sum of two reports of the same filters. *)
Definition add_cut (a b : CutInfo) : CutInfo :=
  mkCut (cut_name a) (cut_pass a + cut_pass b) (cut_all a + cut_all b).

(** The options [parseArgs] stores, and the help option. *)
Definition stored_option (r : GetoptReturn) : bool :=
  (opt r =? chr "i"%char) || (opt r =? chr "o"%char)
  || (opt r =? chr "d"%char) || (opt r =? chr "n"%char).

Definition help_option (r : GetoptReturn) : bool := opt r =? chr "h"%char.

(** The dataset a run gives to the chain, as the usage text words it:
    the first [n] events. *)
Definition first_events (n : Z) (rows : list Event) : list Event :=
  firstn (Z.to_nat n) rows.

(** The command line holds an option [parseArgs] rejects (an unknown
    option or a missing argument, for which [getopt_long] returns ['?']),
    met before any help option.  The arguments of the options are not
    looked at. *)
Definition option_rejected (rs : list GetoptReturn) : Prop :=
  exists pre r post,
    rs = pre ++ r :: post /\ forallb stored_option pre = true /\
    stored_option r = false /\ help_option r = false.

Definition help_requested (rs : list GetoptReturn) : Prop :=
  exists pre r post,
    rs = pre ++ r :: post /\ forallb stored_option pre = true /\
    help_option r = true.

(** Every dataset of the world holds rows that fit an RVec. *)
Definition sized_world (w : World) : Prop :=
  forall path rows e, tree w path = Some rows -> In e rows -> well_sized e.

(** ** Further reference formulations *)

(** [h_dimuon_mass->GetEntries()]: the number of fills of the mass
    histogram, printed as the number of selected dimuon events. *)
Definition nEvents (st : LoopState) : Z := Z.of_nat (List.length (fills st)).

(** All seven muon branches of a row have one length. *)
Definition fully_aligned (e : Event) : Prop :=
  aligned_muons e /\
  List.length (Muon_phi e) = List.length (Muon_pt e) /\
  List.length (Muon_mass e) = List.length (Muon_pt e) /\
  List.length (Muon_charge e) = List.length (Muon_pt e).

(** What a row adds to the histograms. *)
Definition row_fills (pair_mass : PtEtaPhiM -> PtEtaPhiM -> Float_t)
    (e : Event) : list Fill :=
  match eval_row pair_mass e with
  | Ok (Selected f) => [f]
  | _ => []
  end.

(** The argument of the last occurrence of an option on the command
    line. *)
Fixpoint last_optarg (c : Z) (rs : list GetoptReturn) : option string :=
  match rs with
  | [] => None
  | r :: rest =>
      match last_optarg c rest with
      | Some s => Some s
      | None => if opt r =? c then Some (optarg r) else None
      end
  end.

Definition or_default (d : string) (o : option string) : string :=
  match o with
  | Some s => s
  | None => d
  end.

(** Two good muons whose charge branch is one entry short. *)
Definition short_charge : Event :=
  mkEvent true false 1
    (Muon_pt scenario1) (Muon_eta scenario1) (Muon_phi scenario1)
    (Muon_mass scenario1) [1] (Muon_tightId scenario1)
    (Muon_pfRelIso04_all scenario1).

(** A world whose dataset holds that row. *)
Definition broken_world : World :=
  mkWorld (fun _ => Some [scenario1; short_charge]) two_slots.

(** A world without any input file. *)
Definition empty_world : World := mkWorld (fun _ => None) two_slots.

Definition demo_summary_reversed : RunSummary :=
  Eval vm_compute in summary_of (run zero_mass default_config reversed_world).

Definition demo_command_line : list GetoptReturn :=
  [ mkGetopt (chr "n") "3"; mkGetopt (chr "i") "a.root";
    mkGetopt (chr "i") "b.root" ].

(** [savePlot]: the path of the image written for a histogram, and the
    names [bookHistograms] passes to it. *)
Definition outPath (config : AnalysisConfig) (name : string) : string :=
  String.append (outputDir config)
    (String.append "/" (String.append name ".png")).

Definition plot_names : list string :=
  ["nJet"%string; "muon1_pt"%string; "muon2_pt"%string;
   "dimuon_mass"%string].

(** ** ROOT::Math four-vectors in double precision

    [Double_t] is IEEE-754 binary64.  Sums, products, quotients and square
    roots are correctly rounded; the elementary functions come from the
    C math library, which is taken as a parameter of the model. *)

Definition double_prec : Z := 53.
Definition double_emax : Z := 1024.

Definition dadd : spec_float -> spec_float -> spec_float :=
  SFadd double_prec double_emax.
Definition dsub : spec_float -> spec_float -> spec_float :=
  SFsub double_prec double_emax.
Definition dmul : spec_float -> spec_float -> spec_float :=
  SFmul double_prec double_emax.
Definition ddiv : spec_float -> spec_float -> spec_float :=
  SFdiv double_prec double_emax.
Definition dsqrt : spec_float -> spec_float := SFsqrt double_prec double_emax.

(** The conversion of a [float] to [double], which is exact, and the
    narrowing [static_cast<float>] of a [double], rounded to nearest. *)
Definition double_of_float (x : Float_t) : spec_float :=
  match x with
  | S754_finite s m e => binary_round double_prec double_emax s m e
  | _ => x
  end.

Definition float_of_double (x : spec_float) : Float_t :=
  match x with
  | S754_finite s m e => binary_round float_prec float_emax s m e
  | _ => x
  end.

Definition d_zero : spec_float := S754_zero false.
Definition d_half : spec_float := S754_finite false 4503599627370496 (-53).
Definition d_one : spec_float := S754_finite false 4503599627370496 (-52).
Definition d_two : spec_float := S754_finite false 4503599627370496 (-51).
(** [M_PI] *)
Definition d_pi : spec_float := S754_finite false 7074237752028440 (-51).

(** The functions of [<cmath>] used by [PtEtaPhiM4D]. *)
Record Libm : Type := mkLibm {
  libm_cos : spec_float -> spec_float;
  libm_sin : spec_float -> spec_float;
  libm_sinh : spec_float -> spec_float;
  libm_cosh : spec_float -> spec_float;
  libm_floor : spec_float -> spec_float
}.

(** The values the C standard (Annex F) fixes at zero. *)
Definition exact_at_zero (L : Libm) : Prop :=
  libm_cos L d_zero = d_one /\ libm_sin L d_zero = d_zero /\
  libm_sinh L d_zero = d_zero /\ libm_cosh L d_zero = d_one.

(** [ROOT::Math::PtEtaPhiM4D<double>]: the stored coordinates. *)
Record PtEtaPhiM4D : Type := mkPtEtaPhiM4D {
  c_Pt : spec_float;
  c_Eta : spec_float;
  c_Phi : spec_float;
  c_M : spec_float
}.

Section GenVector.

Variable L : Libm.

(** [RestrictPhi]: angles outside (-pi, pi] are brought back. *)
Definition RestrictPhi (phi : spec_float) : spec_float :=
  if SFleb phi (SFopp d_pi) || SFltb d_pi phi
  then dsub phi
         (dmul (dmul (libm_floor L (dadd (ddiv phi (dmul d_two d_pi)) d_half))
                     d_two)
               d_pi)
  else phi.

Definition coord_Px (v : PtEtaPhiM4D) : spec_float :=
  dmul (c_Pt v) (libm_cos L (c_Phi v)).
Definition coord_Py (v : PtEtaPhiM4D) : spec_float :=
  dmul (c_Pt v) (libm_sin L (c_Phi v)).
Definition coord_Pz (v : PtEtaPhiM4D) : spec_float :=
  dmul (c_Pt v) (libm_sinh L (c_Eta v)).
Definition coord_P (v : PtEtaPhiM4D) : spec_float :=
  dmul (c_Pt v) (libm_cosh L (c_Eta v)).
Definition coord_P2 (v : PtEtaPhiM4D) : spec_float :=
  dmul (coord_P v) (coord_P v).
Definition coord_M2 (v : PtEtaPhiM4D) : spec_float :=
  if SFleb d_zero (c_M v) then dmul (c_M v) (c_M v)
  else dmul (SFopp (c_M v)) (c_M v).
Definition coord_E2 (v : PtEtaPhiM4D) : spec_float :=
  let e2 := dadd (coord_P2 v) (coord_M2 v) in
  if SFltb d_zero e2 then e2 else d_zero.
Definition coord_E (v : PtEtaPhiM4D) : spec_float := dsqrt (coord_E2 v).

(** [RestrictNegMass]: a negative mass below [-P] is replaced by [-P]. *)
Definition RestrictNegMass (v : PtEtaPhiM4D) : PtEtaPhiM4D :=
  if SFltb (c_M v) d_zero
  then if SFltb (dsub (coord_P2 v) (dmul (c_M v) (c_M v))) d_zero
       then mkPtEtaPhiM4D (c_Pt v) (c_Eta v) (c_Phi v) (SFopp (coord_P v))
       else v
  else v.

(** The constructor [PtEtaPhiMVector(pt, eta, phi, mass)] on [float]
    arguments. *)
Definition PtEtaPhiMVector (a : PtEtaPhiM) : PtEtaPhiM4D :=
  RestrictNegMass
    (mkPtEtaPhiM4D (double_of_float (fPt a)) (double_of_float (fEta a))
                   (RestrictPhi (double_of_float (fPhi a)))
                   (double_of_float (fM a))).

(** [(mu1 + mu2).M()]: the sum is formed on the Cartesian components
    and its mass is that of [PxPyPzE4D]: the root of
    [T*T - X*X - Y*Y - Z*Z], with a minus sign when that number is
    negative. *)
Definition sum_M2 (v1 v2 : PtEtaPhiM4D) : spec_float :=
  let X := dadd (coord_Px v1) (coord_Px v2) in
  let Y := dadd (coord_Py v1) (coord_Py v2) in
  let Z := dadd (coord_Pz v1) (coord_Pz v2) in
  let T := dadd (coord_E v1) (coord_E v2) in
  dsub (dsub (dsub (dmul T T) (dmul X X)) (dmul Y Y)) (dmul Z Z).

Definition sum_M (v1 v2 : PtEtaPhiM4D) : spec_float :=
  let mm := sum_M2 v1 v2 in
  if SFleb d_zero mm then dsqrt mm else SFopp (dsqrt (SFopp mm)).

(** The lambda of [calculateInvariantMass] on the two masked muons. *)
Definition dimuon_pair_mass (mu1 mu2 : PtEtaPhiM) : Float_t :=
  float_of_double (sum_M (PtEtaPhiMVector mu1) (PtEtaPhiMVector mu2)).

End GenVector.

(** A math library that knows the values at zero only; it is enough to
    evaluate the examples below. *)
Definition only_at_zero (one : bool) (x : spec_float) : spec_float :=
  match x with
  | S754_zero _ => if one then d_one else x
  | _ => S754_nan
  end.

Definition libm_zero : Libm :=
  mkLibm (only_at_zero true) (only_at_zero false) (only_at_zero false)
         (only_at_zero true) (fun x => x).

(** A stored value that is a non-negative number or plus infinity, and
    one that is a non-negative real number. *)
Definition nonneg_or_pinf (x : Float_t) : bool :=
  match x with
  | S754_zero _ | S754_finite false _ _ | S754_infinity false => true
  | _ => false
  end.

Definition nonneg_real (x : Float_t) : bool :=
  match x with
  | S754_zero _ | S754_finite false _ _ => true
  | _ => false
  end.

(** A two-object input of real coordinates with a non-negative mass. *)
Definition valid_object (a : PtEtaPhiM) : bool :=
  binary32_number (fPt a) && binary32_number (fEta a)
  && binary32_number (fPhi a) && binary32_number (fM a)
  && SFleb (S754_zero false) (fM a).

(** A muon along the x axis with pt 45 and the mass 3e38. *)
Definition heavy_muon : PtEtaPhiM :=
  mkPtEtaPhiM (float_of_Z 45) (S754_zero false) (S754_zero false)
              (float_of_Z (3 * 10 ^ 38)).

(** A row with two such muons of opposite charge. *)
Definition heavy_row : Event :=
  mkEvent true false 0
    [float_of_Z 45; float_of_Z 45]
    [S754_zero false; S754_zero false]
    [S754_zero false; S754_zero false]
    [float_of_Z (3 * 10 ^ 38); float_of_Z (3 * 10 ^ 38)]
    [1; -1]
    [true; true]
    [float_ratio 1 100; float_ratio 1 100].

(** ** atoll

    [std::atoll]: leading white space is skipped, then an optional sign
    and the longest run of decimal digits are read; the value is 0 when
    there is no digit.  A value outside [long long] is clamped, as
    [strtoll] does. *)

Definition is_space (c : ascii) : bool :=
  let n := N_of_ascii c in
  (N.eqb n 32 || (N.leb 9 n && N.leb n 13))%bool.

Definition digit_value (c : ascii) : option Z :=
  let n := Z.of_N (N_of_ascii c) in
  if (48 <=? n) && (n <=? 57) then Some (n - 48) else None.

Fixpoint skip_spaces (cs : list ascii) : list ascii :=
  match cs with
  | c :: rest => if is_space c then skip_spaces rest else cs
  | [] => []
  end.

Fixpoint read_digits (cs : list ascii) (acc : Z) : Z :=
  match cs with
  | c :: rest =>
      match digit_value c with
      | Some d => read_digits rest (10 * acc + d)
      | None => acc
      end
  | [] => acc
  end.

Definition clamp_long_long (z : Z) : Z :=
  Z.max (- 2 ^ 63) (Z.min (2 ^ 63 - 1) z).

Definition c_atoll (s : string) : Z :=
  match skip_spaces (list_ascii_of_string s) with
  | c :: rest =>
      if Ascii.eqb c "-" then clamp_long_long (- read_digits rest 0)
      else if Ascii.eqb c "+" then clamp_long_long (read_digits rest 0)
      else clamp_long_long (read_digits (c :: rest) 0)
  | [] => 0
  end.

(** A [-n] argument that is a decimal number: an optional sign and at
    least one digit, nothing else. *)
Definition all_digits (cs : list ascii) : bool :=
  match cs with
  | [] => false
  | _ => forallb (fun c => match digit_value c with
                           | Some _ => true
                           | None => false
                           end) cs
  end.

Definition well_formed_number (s : string) : bool :=
  match list_ascii_of_string s with
  | c :: rest =>
      if Ascii.eqb c "-" || Ascii.eqb c "+" then all_digits rest
      else all_digits (c :: rest)
  | [] => false
  end.

(** A command line in error, in the plain sense: an option the parser
    rejects, or a row limit that is not a number. *)
Definition malformed_limit (rs : list GetoptReturn) : Prop :=
  exists r, In r rs /\ opt r = chr "n" /\
            well_formed_number (optarg r) = false.

Definition not_a_number_line : list GetoptReturn :=
  [mkGetopt (chr "n") "abc"].

(** * Properties *)

(** ** Integers and masks *)

Lemma wrap_int_id z : in_Int z -> wrap_int z = z.
Proof.
  unfold in_Int, Int_min, Int_max, wrap_int. intros H.
  rewrite Z.mod_small; lia.
Qed.

Lemma truthy_b2z b : RVec.truthy (Z.b2z b) = b.
Proof. destruct b; reflexivity. Qed.

Lemma literal_2_4f : lit_2_4f = float_ratio 12 5.
Proof. vm_compute. reflexivity. Qed.

Lemma literal_0_15f : lit_0_15f = float_ratio 15 100.
Proof. vm_compute. reflexivity. Qed.

Lemma literal_20_0f : lit_20_0f = float_of_Z 20.
Proof. vm_compute. reflexivity. Qed.

Lemma elementwise_good_is_mask pt : forall eta id iso,
  is_mask (elementwise_good pt eta id iso).
Proof.
  induction pt as [|p pt IH]; intros [|e eta] [|t id] [|i iso];
    simpl; try constructor.
  - destruct (good_muon p e t i); simpl; auto.
  - apply IH.
Qed.

Lemma elementwise_good_length pt : forall eta id iso,
  List.length eta = List.length pt ->
  List.length id = List.length pt ->
  List.length iso = List.length pt ->
  List.length (elementwise_good pt eta id iso) = List.length pt.
Proof.
  induction pt as [|p pt IH]; intros [|e eta] [|t id] [|i iso];
    simpl; intros; try discriminate; auto.
Qed.

Lemma elementwise_good_nth pt : forall eta id iso i dp de di ds,
  List.length eta = List.length pt ->
  List.length id = List.length pt ->
  List.length iso = List.length pt ->
  (i < List.length pt)%nat ->
  nth i (elementwise_good pt eta id iso) 0 =
  Z.b2z (good_muon (nth i pt dp) (nth i eta de) (nth i id di) (nth i iso ds)).
Proof.
  induction pt as [|p pt IH]; intros [|e eta] [|t id] [|s iso] i dp de di ds;
    simpl; intros He Hi Hs Hlt; try discriminate; try lia.
  destruct i as [|i]; [reflexivity|].
  apply IH; lia.
Qed.

(** The chain of RVec operators computes the elementwise conjunction. *)
Lemma mask_operators pt : forall eta id iso,
  map (fun p => Z.b2z (RVec.truthy (fst p) && RVec.truthy (snd p)))
    (combine
       (map (fun p : Z * bool => Z.b2z (RVec.truthy (fst p) && snd p))
          (combine
             (map (fun p => Z.b2z (RVec.truthy (fst p) && RVec.truthy (snd p)))
                (combine (RVec.gt_scalar pt lit_20_0f)
                         (RVec.lt_scalar (RVec.abs eta) lit_2_4f)))
             id))
       (RVec.lt_scalar iso lit_0_15f))
  = elementwise_good pt eta id iso.
Proof.
  induction pt as [|p pt IH]; intros [|e eta] [|t id] [|s iso];
    try reflexivity.
  cbn [RVec.gt_scalar RVec.lt_scalar RVec.abs map combine fst snd
       elementwise_good].
  rewrite !truthy_b2z. f_equal. apply IH.
Qed.

Lemma logical_and_same_size {A B : Type} (ta : A -> bool) (tb : B -> bool)
    (v0 : list A) (v1 : list B) :
  List.length v0 = List.length v1 ->
  RVec.logical_and ta tb v0 v1 =
  Ok (map (fun p => Z.b2z (ta (fst p) && tb (snd p))) (combine v0 v1)).
Proof.
  intros H. unfold RVec.logical_and. rewrite H, Nat.eqb_refl. reflexivity.
Qed.

Lemma logical_and_length {A B : Type} (ta : A -> bool) (tb : B -> bool)
    (v0 : list A) (v1 : list B) m :
  RVec.logical_and ta tb v0 v1 = Ok m ->
  List.length v0 = List.length v1 /\ List.length m = List.length v0.
Proof.
  unfold RVec.logical_and.
  destruct (Nat.eqb (List.length v0) (List.length v1)) eqn:E; [|discriminate].
  apply Nat.eqb_eq in E. intros H. injection H as <-.
  rewrite length_map, length_combine. lia.
Qed.

Lemma goodMuon_mask_fn_aligned pt eta id iso :
  List.length eta = List.length pt ->
  List.length id = List.length pt ->
  List.length iso = List.length pt ->
  goodMuon_mask_fn pt eta id iso = Ok (elementwise_good pt eta id iso).
Proof.
  intros He Hi Hs. unfold goodMuon_mask_fn.
  rewrite logical_and_same_size
    by (unfold RVec.gt_scalar, RVec.lt_scalar, RVec.abs;
        rewrite !length_map; lia).
  cbn [bind].
  rewrite logical_and_same_size
    by (unfold RVec.gt_scalar, RVec.lt_scalar, RVec.abs;
        rewrite length_map, length_combine, !length_map; lia).
  cbn [bind].
  rewrite logical_and_same_size
    by (unfold RVec.gt_scalar, RVec.lt_scalar, RVec.abs;
        rewrite length_map, length_combine, length_map, length_combine,
          !length_map; lia).
  f_equal. apply mask_operators.
Qed.

(** Summing a mask in [int] arithmetic counts its ones. *)
Lemma Sum_mask_from v : forall acc,
  is_mask v -> 0 <= acc -> acc + Z.of_nat (List.length v) <= Int_max ->
  fold_left int_add v acc = acc + true_count v.
Proof.
  unfold true_count.
  induction v as [|z v IH]; intros acc Hm Hacc Hlen; simpl in *.
  - lia.
  - inversion Hm as [|z' v' Hz Hv]; subst.
    assert (Hw : int_add acc z = acc + z).
    { unfold int_add. apply wrap_int_id. unfold in_Int, Int_min, Int_max in *.
      destruct Hz; subst; lia. }
    rewrite Hw, IH; auto; try lia.
    destruct Hz; subst; simpl; lia.
Qed.

Lemma true_count_bounds v : 0 <= true_count v <= Z.of_nat (List.length v).
Proof.
  unfold true_count. split; [lia|].
  apply inj_le. apply filter_length_le.
Qed.

Lemma nGoodMuon_fn_count v :
  is_mask v -> Z.of_nat (List.length v) <= Int_max ->
  nGoodMuon_fn v = true_count v.
Proof.
  intros Hm Hlen. unfold nGoodMuon_fn, RVec.Sum.
  rewrite Sum_mask_from; auto; try lia.
  apply wrap_int_id. pose proof (true_count_bounds v).
  unfold in_Int, Int_min, Int_max in *. lia.
Qed.

(** ** Order and values of binary32 numbers *)

Lemma digits2_pos_bounds m :
  2 ^ (Zpos (digits2_pos m) - 1) <= Zpos m < 2 ^ Zpos (digits2_pos m).
Proof.
  induction m as [p IH|p IH|]; cbn [digits2_pos].
  - rewrite Pos2Z.inj_succ, Z.pow_succ_r by lia.
    replace (Z.succ (Zpos (digits2_pos p)) - 1) with (Z.succ (Zpos (digits2_pos p) - 1)) by lia.
    rewrite Z.pow_succ_r by lia. lia.
  - rewrite Pos2Z.inj_succ, Z.pow_succ_r by lia.
    replace (Z.succ (Zpos (digits2_pos p)) - 1) with (Z.succ (Zpos (digits2_pos p) - 1)) by lia.
    rewrite Z.pow_succ_r by lia. lia.
  - simpl. lia.
Qed.

Lemma bounded_inv m e :
  bounded float_prec float_emax m e = true ->
  -149 <= e /\ Zpos m < 2 ^ 24 /\ (-149 < e -> 2 ^ 23 <= Zpos m).
Proof.
  unfold bounded, canonical_mantissa, fexp, emin, float_prec, float_emax.
  intros H. apply andb_true_iff in H as [H _]. apply Z.eqb_eq in H.
  pose proof (digits2_pos_bounds m) as [Hlo Hhi].
  set (d := Zpos (digits2_pos m)) in *.
  assert (Hd : 0 < d) by (unfold d; lia).
  destruct (Z.max_spec (d + e - 24) (3 - 128 - 24)) as [[Hc Hm]|[Hc Hm]];
    rewrite Hm in H.
  - (* e = -149, d <= 24 *)
    split; [lia|]. split; [|lia].
    eapply Z.lt_le_trans; [exact Hhi|]. apply Z.pow_le_mono_r; lia.
  - assert (d = 24) by lia. 
    replace (d - 1) with 23 in Hlo by lia. replace d with 24 in Hhi by lia.
    split; [lia|]. split; [exact Hhi|]. intros _. exact Hlo.
Qed.

Lemma pow2_pos k : 0 < 2 ^ k \/ 2 ^ k = 0.
Proof.
  destruct (Z.le_gt_cases 0 k) as [H|H].
  - left. apply Z.pow_pos_nonneg; lia.
  - right. apply Z.pow_neg_r. lia.
Qed.

Lemma pow2_split a b : 0 <= a -> 0 <= b -> 2 ^ (a + b) = 2 ^ a * 2 ^ b.
Proof. intros. apply Z.pow_add_r; assumption. Qed.

(** Order of two positive data in canonical form. *)
Lemma compare_positive m1 e1 m2 e2 :
  bounded float_prec float_emax m1 e1 = true ->
  bounded float_prec float_emax m2 e2 = true ->
  SFcompare (S754_finite false m1 e1) (S754_finite false m2 e2) =
  Some (Zpos m1 * 2 ^ (e1 + 149) ?= Zpos m2 * 2 ^ (e2 + 149)).
Proof.
  intros H1 H2.
  apply bounded_inv in H1 as (L1 & U1 & N1), H2 as (L2 & U2 & N2).
  cbn [SFcompare]. f_equal.
  destruct (Z.compare_spec e1 e2) as [E|E|E].
  - subst e2. change (Pos.compare_cont Eq m1 m2) with (Pos.compare m1 m2).
    rewrite Pos2Z.inj_compare.
    assert (P : 0 < 2 ^ (e1 + 149)) by (apply Z.pow_pos_nonneg; lia).
    symmetry. destruct (Z.compare_spec (Zpos m1) (Zpos m2)) as [C|C|C].
    + rewrite C. apply Z.compare_refl.
    + apply Z.compare_lt_iff. nia.
    + apply Z.compare_gt_iff. nia.
  - symmetry. apply Z.compare_lt_iff.
    replace (e2 + 149) with ((e1 + 149) + (e2 - e1)) by lia.
    rewrite (pow2_split (e1 + 149) (e2 - e1)) by lia.
    assert (P : 0 < 2 ^ (e1 + 149)) by (apply Z.pow_pos_nonneg; lia).
    assert (K : 2 ^ 1 <= 2 ^ (e2 - e1)) by (apply Z.pow_le_mono_r; lia).
    specialize (N2 ltac:(lia)). change (2 ^ 1) with 2 in K.
    change (2 ^ 23) with 8388608 in *. change (2 ^ 24) with 16777216 in *.
    set (p := 2 ^ (e1 + 149)) in *. set (k := 2 ^ (e2 - e1)) in *.
    assert (H1 : 16777216 <= Zpos m2 * k) by nia.
    assert (H2 : Zpos m1 * p < 16777216 * p) by nia.
    assert (H3 : 16777216 * p <= Zpos m2 * k * p) by nia.
    replace (Zpos m2 * (p * k)) with (Zpos m2 * k * p) by ring. lia.
  - symmetry. apply Z.compare_gt_iff.
    replace (e1 + 149) with ((e2 + 149) + (e1 - e2)) by lia.
    rewrite (pow2_split (e2 + 149) (e1 - e2)) by lia.
    assert (P : 0 < 2 ^ (e2 + 149)) by (apply Z.pow_pos_nonneg; lia).
    assert (K : 2 ^ 1 <= 2 ^ (e1 - e2)) by (apply Z.pow_le_mono_r; lia).
    specialize (N1 ltac:(lia)). change (2 ^ 1) with 2 in K.
    change (2 ^ 23) with 8388608 in *. change (2 ^ 24) with 16777216 in *.
    set (p := 2 ^ (e2 + 149)) in *. set (k := 2 ^ (e1 - e2)) in *.
    assert (H1 : 16777216 <= Zpos m1 * k) by nia.
    assert (H2 : Zpos m2 * p < 16777216 * p) by nia.
    assert (H3 : 16777216 * p <= Zpos m1 * k * p) by nia.
    replace (Zpos m1 * (p * k)) with (Zpos m1 * k * p) by ring. lia.
Qed.

Lemma scaled_finite_sign (s : bool) (m : positive) (e : Z) :
  -149 <= e ->
  if s return Prop then scaled (S754_finite s m e) < 0
  else 0 < scaled (S754_finite s m e).
Proof.
  intros H. cbn [scaled].
  assert (P : 0 < 2 ^ (e + 149)) by (apply Z.pow_pos_nonneg; lia).
  destruct s; cbn [cond_Zopp]; nia.
Qed.

Lemma compare_negative m1 e1 m2 e2 :
  SFcompare (S754_finite true m1 e1) (S754_finite true m2 e2) =
  SFcompare (S754_finite false m2 e2) (S754_finite false m1 e1).
Proof.
  cbn [SFcompare]. f_equal. rewrite (Z.compare_antisym e1 e2).
  destruct (e1 ?= e2); cbn [CompOpp]; try reflexivity.
  change (Pos.compare_cont Datatypes.Eq m1 m2) with (Pos.compare m1 m2).
  change (Pos.compare_cont Datatypes.Eq m2 m1) with (Pos.compare m2 m1).
  rewrite (Pos.compare_antisym m1 m2). reflexivity.
Qed.

(** On numbers in canonical form [SFltb] is the order of their values. *)
Lemma SFltb_scaled x y :
  valid_float x = true -> valid_float y = true ->
  is_number x = true -> is_number y = true ->
  SFltb x y = (scaled x <? scaled y).
Proof.
  intros Vx Vy Nx Ny.
  destruct x as [sx|sx| |sx mx ex]; try discriminate;
  destruct y as [sy|sy| |sy my ey]; try discriminate.
  - reflexivity.
  - cbn [valid_float valid_binary] in Vy.
    pose proof (bounded_inv _ _ Vy) as (L & _).
    pose proof (scaled_finite_sign sy my ey L) as S.
    unfold SFltb. cbn [SFcompare]. change (scaled (S754_zero sx)) with 0.
    destruct sy; symmetry; [apply Z.ltb_ge | apply Z.ltb_lt]; lia.
  - cbn [valid_float valid_binary] in Vx.
    pose proof (bounded_inv _ _ Vx) as (L & _).
    pose proof (scaled_finite_sign sx mx ex L) as S.
    unfold SFltb. cbn [SFcompare]. change (scaled (S754_zero sy)) with 0.
    destruct sx; symmetry; [apply Z.ltb_lt | apply Z.ltb_ge]; lia.
  - cbn [valid_float valid_binary] in Vx, Vy.
    pose proof (bounded_inv _ _ Vx) as (Lx & _).
    pose proof (bounded_inv _ _ Vy) as (Ly & _).
    pose proof (scaled_finite_sign sx mx ex Lx) as Sx.
    pose proof (scaled_finite_sign sy my ey Ly) as Sy.
    destruct sx, sy.
    + unfold SFltb.
      rewrite compare_negative, (compare_positive _ _ _ _ Vy Vx).
      unfold scaled, cond_Zopp.
      destruct (Z.compare_spec (Zpos my * 2 ^ (ey + 149))
                               (Zpos mx * 2 ^ (ex + 149)));
        symmetry; [apply Z.ltb_ge | apply Z.ltb_lt | apply Z.ltb_ge]; lia.
    + unfold SFltb. cbn [SFcompare]. symmetry. apply Z.ltb_lt. lia.
    + unfold SFltb. cbn [SFcompare]. symmetry. apply Z.ltb_ge. lia.
    + unfold SFltb. rewrite (compare_positive _ _ _ _ Vx Vy).
      unfold scaled, cond_Zopp.
      destruct (Z.compare_spec (Zpos mx * 2 ^ (ex + 149))
                               (Zpos my * 2 ^ (ey + 149)));
        symmetry; [apply Z.ltb_ge | apply Z.ltb_lt | apply Z.ltb_ge]; lia.
Qed.

(** A number in canonical form is a multiple of [2 ^ (k - 149)] or lies
    below [2 ^ (k - 126)] in absolute value. *)
Lemma scaled_grid x k :
  valid_float x = true -> is_number x = true -> 0 <= k ->
  (exists t, scaled x = t * 2 ^ k) \/
  (- (2 ^ 23 * 2 ^ k) < scaled x < 2 ^ 23 * 2 ^ k).
Proof.
  intros V N Hk. destruct x as [s|s| |s m e]; try discriminate.
  - left. exists 0. reflexivity.
  - cbn [valid_float valid_binary] in V.
    apply bounded_inv in V as (L & U & _). cbn [scaled].
    destruct (Z.le_gt_cases k (e + 149)) as [H|H].
    + left. exists (cond_Zopp s (Zpos m) * 2 ^ (e + 149 - k)).
      rewrite <- Z.mul_assoc, <- Z.pow_add_r by lia.
      do 2 f_equal. lia.
    + right.
      assert (P : 0 < 2 ^ (e + 149)) by (apply Z.pow_pos_nonneg; lia).
      assert (K : 2 * 2 ^ (e + 149) <= 2 ^ k).
      { replace k with (Z.succ (k - 1)) by lia. rewrite Z.pow_succ_r by lia.
        apply Z.mul_le_mono_nonneg_l; [lia|]. apply Z.pow_le_mono_r; lia. }
      change (2 ^ 23) with 8388608. change (2 ^ 24) with 16777216 in U.
      set (p := 2 ^ (e + 149)) in *. set (q := 2 ^ k) in *.
      destruct s; cbn [cond_Zopp]; nia.
Qed.

(** Comparison with a literal that is the least binary32 value at or
    above the fraction [n / (d * 2 ^ (149 - k))]. *)
Lemma below_literal x mc k n d :
  valid_float x = true -> is_number x = true -> 0 <= k ->
  2 ^ 23 < mc -> 0 < d -> (mc - 1) * d < n -> n <= mc * d ->
  (scaled x < mc * 2 ^ k <-> scaled x * d < n * 2 ^ k).
Proof.
  intros V N Hk Hmc Hd Hlo Hhi.
  assert (G : 0 < 2 ^ k) by (apply Z.pow_pos_nonneg; lia).
  change (2 ^ 23) with 8388608 in Hmc.
  destruct (scaled_grid x k V N Hk) as [[t ->] | [Hl Hu]].
  - set (g := 2 ^ k) in *. split; intros H.
    + assert (t < mc) by nia. assert (t * d <= (mc - 1) * d) by nia.
      assert (t * d < n) by lia. nia.
    + assert (t * d < n) by nia. assert (t < mc) by nia. nia.
  - change (2 ^ 23) with 8388608 in Hl, Hu. set (g := 2 ^ k) in *.
    split; intros _; [|nia].
    assert (8388608 * d <= (mc - 1) * d) by nia.
    destruct (Z.le_gt_cases (scaled x) 0) as [Hs|Hs]; [nia|].
    assert (scaled x * d < 8388608 * g * d) by nia.
    assert (8388608 * g * d <= (mc - 1) * d * g) by nia. nia.
Qed.

Lemma scaled_abs x : scaled (SFabs x) = Z.abs (scaled x).
Proof.
  destruct x as [s|s| |s m e]; try reflexivity.
  cbn [SFabs scaled cond_Zopp].
  destruct s; cbn [cond_Zopp]; lia.
Qed.

Lemma valid_abs x : valid_float (SFabs x) = valid_float x.
Proof. destruct x; reflexivity. Qed.

Lemma number_abs x : is_number (SFabs x) = is_number x.
Proof. destruct x; reflexivity. Qed.

Lemma float_value_lt x (n : Z) (d : positive) :
  (float_value x < n # d)%Q <-> scaled x * Zpos d < n * 2 ^ 149.
Proof. unfold float_value, Qlt. cbn [Qnum Qden]. reflexivity. Qed.

Lemma float_value_gt x (n : Z) (d : positive) :
  (n # d < float_value x)%Q <-> n * 2 ^ 149 < scaled x * Zpos d.
Proof. unfold float_value, Qlt. cbn [Qnum Qden]. reflexivity. Qed.

(** The three literals cut the binary32 numbers exactly at the decimal
    thresholds 20, 2.4 and 0.15. *)
Lemma quality_cuts_exact pt eta tightId iso :
  valid_float pt = true -> valid_float eta = true -> valid_float iso = true ->
  is_number pt = true -> is_number eta = true -> is_number iso = true ->
  (good_muon pt eta tightId iso = true <->
   (20 # 1 < float_value pt)%Q /\
   (Qabs (float_value eta) < 12 # 5)%Q /\
   tightId = true /\
   (float_value iso < 3 # 20)%Q).
Proof.
  intros Vp Ve Vi Np Ne Ni. unfold good_muon.
  rewrite !andb_true_iff.
  rewrite (SFltb_scaled lit_20_0f pt), (SFltb_scaled (SFabs eta) lit_2_4f),
    (SFltb_scaled iso lit_0_15f);
    try reflexivity; try assumption;
    try (rewrite valid_abs; assumption); try (rewrite number_abs; assumption).
  rewrite !Z.ltb_lt, scaled_abs.
  change (Qabs (float_value eta)) with (Z.abs (scaled eta) # 2 ^ 149).
  rewrite float_value_gt, float_value_lt.
  change ((Z.abs (scaled eta) # 2 ^ 149 < 12 # 5)%Q)
    with (Z.abs (scaled eta) * 5 < 12 * 2 ^ 149).
  rewrite <- scaled_abs.
  assert (Hp : scaled lit_20_0f = 20 * 2 ^ 149) by reflexivity.
  assert (He : scaled lit_2_4f = 10066330 * 2 ^ 127) by reflexivity.
  assert (Hi : scaled lit_0_15f = 10066330 * 2 ^ 123) by reflexivity.
  assert (He' : 12 * 2 ^ 149 = 50331648 * 2 ^ 127) by reflexivity.
  assert (Hi' : 3 * 2 ^ 149 = 201326592 * 2 ^ 123) by reflexivity.
  rewrite Hp, He, Hi, He', Hi'.
  rewrite (below_literal (SFabs eta) 10066330 127 50331648 5);
    try lia; try (rewrite valid_abs; assumption);
    try (rewrite number_abs; assumption); try reflexivity.
  rewrite (below_literal iso 10066330 123 201326592 20);
    try lia; try assumption; try reflexivity.
  change (Z.pos 1) with 1. change (Z.pos 20) with 20. 
  split; intros H; repeat split; try tauto; lia.
Qed.

(** C1. For a row whose muon branches have one length (at most the
    largest [int]), the good-muon mask is defined, has the length of the
    branches, holds at every position the conjunction of pt > 20,
    |eta| < 2.4, tight identification and isolation < 0.15 of the muon at
    that position, and [nGoodMuon] is the number of true entries of the
    mask.  The conjunction is stated twice: on the binary32 data with the
    literals of the code (this covers infinities and NaN), and, for
    entries that are numbers, on their values with the decimal
    thresholds. *)
Theorem goodMuon_mask_elementwise (e : Event) :
  aligned_muons e ->
  well_sized e ->
  exists mask,
    goodMuon_mask e = Ok mask /\
    List.length mask = List.length (Muon_pt e) /\
    (forall i dp de di ds, (i < List.length (Muon_pt e))%nat ->
       nth i mask 0 =
       Z.b2z (good_muon (nth i (Muon_pt e) dp) (nth i (Muon_eta e) de)
                        (nth i (Muon_tightId e) di)
                        (nth i (Muon_pfRelIso04_all e) ds))) /\
    (forall i pt eta id iso,
       nth_error (Muon_pt e) i = Some pt ->
       nth_error (Muon_eta e) i = Some eta ->
       nth_error (Muon_tightId e) i = Some id ->
       nth_error (Muon_pfRelIso04_all e) i = Some iso ->
       binary32_number pt = true -> binary32_number eta = true ->
       binary32_number iso = true ->
       (nth i mask 0 = 1 <->
        (20 # 1 < float_value pt)%Q /\
        (Qabs (float_value eta) < 12 # 5)%Q /\
        id = true /\
        (float_value iso < 3 # 20)%Q)) /\
    nGoodMuon e = Ok (true_count mask).
Proof.
  intros (He & Hi & Hs) Hlen.
  exists (elementwise_good (Muon_pt e) (Muon_eta e) (Muon_tightId e)
            (Muon_pfRelIso04_all e)).
  assert (Hmask : goodMuon_mask e = Ok (elementwise_good (Muon_pt e)
            (Muon_eta e) (Muon_tightId e) (Muon_pfRelIso04_all e))).
  { unfold goodMuon_mask. apply goodMuon_mask_fn_aligned; assumption. }
  split; [exact Hmask|].
  split; [apply elementwise_good_length; assumption|].
  split; [|split].
  - intros i dp de di ds Hlt. apply elementwise_good_nth; assumption.
  - intros i pt eta id iso Hpt Heta Hid Hiso Np Ne Ni.
    assert (Hlt : (i < List.length (Muon_pt e))%nat).
    { apply nth_error_Some. rewrite Hpt. discriminate. }
    rewrite (elementwise_good_nth _ _ _ _ i pt eta id iso) by assumption.
    rewrite (nth_error_nth _ _ pt Hpt), (nth_error_nth _ _ eta Heta),
      (nth_error_nth _ _ id Hid), (nth_error_nth _ _ iso Hiso).
    unfold binary32_number in Np, Ne, Ni.
    apply andb_true_iff in Np as [Vp Np], Ne as [Ve Ne], Ni as [Vi Ni].
    rewrite <- (quality_cuts_exact pt eta id iso) by assumption.
    destruct (good_muon pt eta id iso); cbn [Z.b2z];
      split; intros H; (reflexivity || discriminate).
  - unfold nGoodMuon. rewrite Hmask. cbn [bind]. f_equal.
    apply nGoodMuon_fn_count.
    + apply elementwise_good_is_mask.
    + rewrite elementwise_good_length; assumption.
Qed.

(** ** Indexing by a mask keeps the original order *)

Lemma true_positions_length conds :
  List.length (true_positions conds) = List.length (filter RVec.truthy conds).
Proof.
  induction conds as [|c cs IH]; simpl; [reflexivity|].
  rewrite length_app, length_map, IH.
  destruct (RVec.truthy c); reflexivity.
Qed.

Lemma true_positions_count conds :
  Z.of_nat (List.length (true_positions conds)) = true_count conds.
Proof. unfold true_count. now rewrite true_positions_length. Qed.

Lemma true_positions_In conds : forall i,
  In i (true_positions conds) <->
  (i < List.length conds)%nat /\ RVec.truthy (nth i conds 0) = true.
Proof.
  induction conds as [|c cs IH]; intros i; simpl.
  - split; [tauto | intros [H _]; lia].
  - rewrite in_app_iff, in_map_iff. split.
    + intros [H | (k & <- & Hk)].
      * destruct (RVec.truthy c) eqn:E; simpl in H; [|tauto].
        destruct H as [<- | []]. split; [lia | exact E].
      * apply IH in Hk. split; [lia | tauto].
    + intros [Hlt Ht]. destruct i as [|k].
      * left. rewrite Ht. simpl. auto.
      * right. exists k. split; [reflexivity|]. apply IH. split; [lia|assumption].
Qed.

Lemma true_positions_sorted conds :
  StronglySorted Nat.lt (true_positions conds).
Proof.
  induction conds as [|c cs IH]; simpl; [constructor|].
  assert (Hs : StronglySorted Nat.lt (map S (true_positions cs))).
  { clear -IH. induction IH as [|k l Hl IHl Hk]; simpl; constructor; auto.
    rewrite Forall_forall in *. intros x Hx.
    apply in_map_iff in Hx as (y & <- & Hy). apply Hk in Hy. lia. }
  destruct (RVec.truthy c); simpl; [|exact Hs].
  constructor; [exact Hs|].
  rewrite Forall_forall. intros x Hx.
  apply in_map_iff in Hx as (y & <- & _). lia.
Qed.

Lemma true_positions_pair conds i j :
  true_positions conds = [i; j] ->
  (i < j)%nat /\ (j < List.length conds)%nat /\
  nth i conds 0 <> 0 /\ nth j conds 0 <> 0.
Proof.
  intros H.
  pose proof (true_positions_sorted conds) as Hs. rewrite H in Hs.
  assert (Hi : In i (true_positions conds)) by (rewrite H; simpl; auto).
  assert (Hj : In j (true_positions conds)) by (rewrite H; simpl; auto).
  apply true_positions_In in Hi as [_ Hi], Hj as [Hj Hj'].
  inversion Hs as [|? ? _ Hall]; subst.
  inversion Hall as [|? ? Hij _]; subst.
  unfold RVec.truthy in *.
  repeat split; try assumption.
  - intros E. rewrite E in Hi. discriminate.
  - intros E. rewrite E in Hj'. discriminate.
Qed.

Lemma masked_by_positions {A : Type} (d : A) (v : list A) : forall conds,
  List.length v = List.length conds ->
  map fst (filter (fun p => RVec.truthy (snd p)) (combine v conds)) =
  map (fun i => nth i v d) (true_positions conds).
Proof.
  induction v as [|x v IH]; intros [|c cs] Hlen; simpl in *;
    try discriminate; [reflexivity|].
  rewrite map_app, map_map.
  destruct (RVec.truthy c); simpl; f_equal; apply IH; lia.
Qed.

Lemma mask_inv {A : Type} (d : A) (v : list A) conds r :
  RVec.mask v conds = Ok r ->
  List.length v = List.length conds /\
  r = map (fun i => nth i v d) (true_positions conds).
Proof.
  unfold RVec.mask.
  destruct (Nat.eqb (List.length v) (List.length conds)) eqn:E; [|discriminate].
  apply Nat.eqb_eq in E. intros H. injection H as <-.
  split; [exact E | apply masked_by_positions; exact E].
Qed.

Lemma mask_same_size {A : Type} (d : A) (v : list A) conds :
  List.length v = List.length conds ->
  RVec.mask v conds = Ok (map (fun i => nth i v d) (true_positions conds)).
Proof.
  intros E. unfold RVec.mask. rewrite E, Nat.eqb_refl. f_equal.
  apply masked_by_positions. exact E.
Qed.

Lemma mask_defined {A : Type} (v : list A) conds :
  RVec.mask v conds <> Undefined.
Proof.
  unfold RVec.mask.
  destruct (Nat.eqb (List.length v) (List.length conds)); discriminate.
Qed.

(** ** The good-muon mask whenever it is computed *)

Lemma goodMuon_mask_aligned e mask :
  goodMuon_mask e = Ok mask -> aligned_muons e.
Proof.
  unfold goodMuon_mask, goodMuon_mask_fn. intros H.
  destruct (RVec.logical_and RVec.truthy RVec.truthy
              (RVec.gt_scalar (Muon_pt e) lit_20_0f)
              (RVec.lt_scalar (RVec.abs (Muon_eta e)) lit_2_4f))
    as [m1| |] eqn:E1; try discriminate.
  cbn [bind] in H.
  destruct (RVec.logical_and RVec.truthy (fun b : bool => b) m1
              (Muon_tightId e)) as [m2| |] eqn:E2; try discriminate.
  cbn [bind] in H.
  apply logical_and_length in E1 as [L1 L1'], E2 as [L2 L2'], H as [L3 _].
  unfold RVec.gt_scalar, RVec.lt_scalar, RVec.abs in L1, L1', L3.
  rewrite !length_map in L1. rewrite length_map in L1', L3.
  unfold aligned_muons. lia.
Qed.

Lemma goodMuon_mask_inv e mask :
  goodMuon_mask e = Ok mask ->
  mask = elementwise_good (Muon_pt e) (Muon_eta e) (Muon_tightId e)
           (Muon_pfRelIso04_all e) /\
  is_mask mask /\ List.length mask = List.length (Muon_pt e).
Proof.
  intros H. pose proof (goodMuon_mask_aligned _ _ H) as (He & Hi & Hs).
  unfold goodMuon_mask in H.
  rewrite goodMuon_mask_fn_aligned in H by assumption.
  injection H as <-.
  split; [reflexivity|]. split.
  - apply elementwise_good_is_mask.
  - apply elementwise_good_length; assumption.
Qed.

Lemma goodMuon_mask_defined e : goodMuon_mask e <> Undefined.
Proof.
  unfold goodMuon_mask, goodMuon_mask_fn, RVec.logical_and.
  repeat match goal with
         | |- context [if ?c then _ else _] => destruct c; cbn [bind]
         end; discriminate.
Qed.

(** A row whose muon branches differ in length makes the mask throw. *)
Lemma goodMuon_mask_misaligned e :
  ~ aligned_muons e -> exists what, goodMuon_mask e = Throw what.
Proof.
  intros Hn. pose proof (goodMuon_mask_defined e) as Hd.
  destruct (goodMuon_mask e) as [mask|what|] eqn:E.
  - exfalso. apply Hn. eapply goodMuon_mask_aligned. exact E.
  - exists what. reflexivity.
  - congruence.
Qed.

(** A row with exactly two good muons: the mask and its two positions. *)
Lemma twoMuons_inv e :
  well_sized e -> twoMuons e = Ok true ->
  exists mask i j,
    goodMuon_mask e = Ok mask /\ is_mask mask /\
    List.length mask = List.length (Muon_pt e) /\
    true_count mask = 2 /\ true_positions mask = [i; j].
Proof.
  unfold well_sized, twoMuons, nGoodMuon. intros Hsz H.
  destruct (goodMuon_mask e) as [mask| |] eqn:Hm; try discriminate.
  cbn [bind] in H. injection H as H. apply Z.eqb_eq in H.
  pose proof (goodMuon_mask_inv _ _ Hm) as (_ & Hmask & Hlen).
  rewrite nGoodMuon_fn_count in H by (auto; rewrite Hlen; assumption).
  pose proof (true_positions_count mask) as Hc. rewrite H in Hc.
  destruct (true_positions mask) as [|i [|j [|k l]]] eqn:Hp;
    simpl in Hc; try lia.
  exists mask, i, j. auto.
Qed.

Lemma masked_pair {A : Type} (d : A) (v : list A) mask i j r :
  true_positions mask = [i; j] ->
  RVec.mask v mask = Ok r ->
  List.length v = List.length mask /\ r = [nth i v d; nth j v d].
Proof.
  intros Hp Hr. apply (mask_inv d) in Hr as [Hlen ->].
  rewrite Hp. split; [exact Hlen | reflexivity].
Qed.

Lemma nth_error_of_nth {A : Type} (d : A) (v : list A) i :
  (i < List.length v)%nat -> nth_error v i = Some (nth i v d).
Proof. intros H. apply nth_error_nth'. exact H. Qed.

Lemma int_mul_exact a b : in_Int (a * b) -> int_mul a b = a * b.
Proof. intros H. unfold int_mul. apply wrap_int_id. exact H. Qed.

Section SelectionProperties.

Variable pair_mass : PtEtaPhiM -> PtEtaPhiM -> Float_t.

(** ** The trigger filter *)

(** C4. A row passes the trigger filter exactly when [HLT_IsoMu24] or
    [HLT_IsoMu18] is set, and it is rejected at the trigger filter
    exactly when both are clear. *)
Theorem trigger_filter_is_or (e : Event) :
  (passTrigger e = true <->
     HLT_IsoMu24 e = true \/ HLT_IsoMu18 e = true) /\
  (eval_row pair_mass e = Ok FailTrigger <->
     HLT_IsoMu24 e = false /\ HLT_IsoMu18 e = false).
Proof.
  split.
  - unfold passTrigger. apply orb_true_iff.
  - unfold eval_row, passTrigger. rewrite <- orb_false_iff.
    destruct (HLT_IsoMu24 e || HLT_IsoMu18 e); cbn [negb].
    + split; [|discriminate].
      destruct (twoMuons e) as [[|]| |]; cbn [bind negb];
        try discriminate.
      destruct (oppSign e) as [[|]| |]; cbn [bind negb];
        try discriminate.
      destruct (fill_row pair_mass e); cbn [bind]; discriminate.
    + split; reflexivity.
Qed.

(** ** The pair and charge filters *)

(** C2. A row passing the exact-pair filter has [nGoodMuon = 2] and a
    mask with exactly two true entries, at positions [i < j] of the
    muon branches.  The masked collections hold the muons of these two
    positions in that order, whatever their momenta; a row that also
    passes the opposite-sign filter has a negative product of the
    charges at [i] and [j] (as an [Int_t] product, and as an integer
    whenever the product is representable). *)
Theorem pair_and_charge_filters (e : Event) :
  well_sized e ->
  twoMuons e = Ok true ->
  exists mask i j,
    goodMuon_mask e = Ok mask /\ nGoodMuon e = Ok 2 /\
    true_count mask = 2 /\ true_positions mask = [i; j] /\ (i < j)%nat /\
    (forall d, goodMuon_pt e = Ok [nth i (Muon_pt e) d; nth j (Muon_pt e) d]) /\
    (oppSign e = Ok true ->
       exists ci cj,
         nth_error (Muon_charge e) i = Some ci /\
         nth_error (Muon_charge e) j = Some cj /\
         goodMuon_charge e = Ok [ci; cj] /\
         int_mul ci cj < 0 /\ (in_Int (ci * cj) -> ci * cj < 0)).
Proof.
  intros Hsz Htwo.
  destruct (twoMuons_inv e Hsz Htwo) as (mask & i & j & Hm & Hmask & Hlen & Hc & Hp).
  exists mask, i, j.
  pose proof (true_positions_pair _ _ _ Hp) as (Hij & Hj & _).
  repeat split; try assumption.
  - unfold nGoodMuon. rewrite Hm. cbn [bind]. f_equal.
    rewrite nGoodMuon_fn_count; auto. rewrite Hlen. exact Hsz.
  - intros d. unfold goodMuon_pt. rewrite Hm. cbn [bind].
    rewrite (mask_same_size d) by (symmetry; exact Hlen).
    rewrite Hp. reflexivity.
  - unfold oppSign, goodMuon_charge. rewrite Hm. cbn [bind].
    destruct (RVec.mask (Muon_charge e) mask) as [ch| |] eqn:Hch;
      cbn [bind]; try discriminate.
    destruct (masked_pair 0 _ _ _ _ _ Hp Hch) as [Hl ->].
    unfold oppSign_fn, RVec.at_. cbn [nth_error bind].
    intros H. injection H as H. apply Z.ltb_lt in H.
    exists (nth i (Muon_charge e) 0), (nth j (Muon_charge e) 0).
    repeat split.
    + apply nth_error_of_nth. lia.
    + apply nth_error_of_nth. lia.
    + exact H.
    + intros Hr. rewrite <- (int_mul_exact _ _ Hr). exact H.
Qed.

(** ** Element accesses *)

Lemma oppSign_fn_pair c0 c1 :
  oppSign_fn [c0; c1] = Ok (int_mul c0 c1 <? 0).
Proof. reflexivity. Qed.

Lemma dimuon_mass_fn_pair p0 p1 e0 e1 h0 h1 m0 m1 :
  dimuon_mass_fn pair_mass [p0; p1] [e0; e1] [h0; h1] [m0; m1] =
  Ok (pair_mass (mkPtEtaPhiM p0 e0 h0 m0) (mkPtEtaPhiM p1 e1 h1 m1)).
Proof. reflexivity. Qed.

Lemma oppSign_defined (e : Event) :
  well_sized e -> twoMuons e = Ok true -> oppSign e <> Undefined.
Proof.
  intros Hsz Htwo.
  destruct (twoMuons_inv e Hsz Htwo) as (mask & i & j & Hm & _ & _ & _ & Hp).
  unfold oppSign, goodMuon_charge. rewrite Hm. cbn [bind].
  destruct (RVec.mask (Muon_charge e) mask) as [ch| |] eqn:Hch;
    cbn [bind]; try discriminate.
  - destruct (masked_pair 0 _ _ _ _ _ Hp Hch) as [_ ->].
    rewrite oppSign_fn_pair. discriminate.
  - exfalso. exact (mask_defined _ _ Hch).
Qed.

Lemma fill_row_defined (e : Event) :
  well_sized e -> twoMuons e = Ok true ->
  fill_row pair_mass e <> Undefined.
Proof.
  intros Hsz Htwo.
  destruct (twoMuons_inv e Hsz Htwo)
    as (mask & i & j & Hm & _ & Hlen & _ & Hp).
  pose proof (goodMuon_mask_aligned _ _ Hm) as (He & _ & _).
  set (z := S754_zero false).
  assert (Hpt : goodMuon_pt e = Ok [nth i (Muon_pt e) z; nth j (Muon_pt e) z]).
  { unfold goodMuon_pt. rewrite Hm. cbn [bind].
    rewrite (mask_same_size z) by lia. now rewrite Hp. }
  assert (Heta : goodMuon_eta e =
                 Ok [nth i (Muon_eta e) z; nth j (Muon_eta e) z]).
  { unfold goodMuon_eta. rewrite Hm. cbn [bind].
    rewrite (mask_same_size z) by lia. now rewrite Hp. }
  unfold fill_row, muon1_pt, muon2_pt, dimuon_mass.
  rewrite Hpt, Heta. cbn [bind RVec.at_ nth_error].
  unfold goodMuon_phi, goodMuon_mass. rewrite Hm. cbn [bind].
  destruct (RVec.mask (Muon_phi e) mask) as [ph| |] eqn:Hph;
    cbn [bind]; try discriminate.
  2:{ exfalso. exact (mask_defined _ _ Hph). }
  destruct (RVec.mask (Muon_mass e) mask) as [ms| |] eqn:Hms;
    cbn [bind]; try discriminate.
  2:{ exfalso. exact (mask_defined _ _ Hms). }
  destruct (masked_pair z _ _ _ _ _ Hp Hph) as [_ ->].
  destruct (masked_pair z _ _ _ _ _ Hp Hms) as [_ ->].
  rewrite dimuon_mass_fn_pair. cbn [bind]. discriminate.
Qed.

Lemma twoMuons_defined (e : Event) : twoMuons e <> Undefined.
Proof.
  unfold twoMuons, nGoodMuon.
  pose proof (goodMuon_mask_defined e).
  destruct (goodMuon_mask e); cbn [bind]; congruence.
Qed.

(** No row of the chain reads outside a vector. *)
Lemma eval_row_defined (e : Event) :
  well_sized e -> eval_row pair_mass e <> Undefined.
Proof.
  intros Hsz. unfold eval_row.
  destruct (negb (passTrigger e)); [discriminate|].
  pose proof (twoMuons_defined e) as Ht.
  destruct (twoMuons e) as [[|]| |] eqn:Htwo; cbn [bind negb];
    try discriminate; try congruence.
  pose proof (oppSign_defined e Hsz Htwo) as Ho.
  destruct (oppSign e) as [[|]| |]; cbn [bind negb];
    try discriminate; try congruence.
  pose proof (fill_row_defined e Hsz Htwo) as Hf.
  destruct (fill_row pair_mass e); cbn [bind]; try discriminate; congruence.
Qed.

(** C10. In a row that passed the exact-pair filter every masked
    collection that is computed has exactly two elements, so the
    accesses at 0 and 1 in the opposite-sign filter, in the
    invariant-mass lambda and in the two momentum columns stay inside
    the vectors: none of them is an out-of-range read. *)
Theorem masked_accesses_in_bounds (e : Event) :
  well_sized e ->
  twoMuons e = Ok true ->
  (forall ch, goodMuon_charge e = Ok ch ->
     List.length ch = 2%nat /\ exists b, oppSign_fn ch = Ok b) /\
  (forall pt, goodMuon_pt e = Ok pt ->
     List.length pt = 2%nat /\
     (exists x, RVec.at_ pt 0 = Ok x) /\ (exists y, RVec.at_ pt 1 = Ok y)) /\
  (forall pt eta phi mass,
     goodMuon_pt e = Ok pt -> goodMuon_eta e = Ok eta ->
     goodMuon_phi e = Ok phi -> goodMuon_mass e = Ok mass ->
     List.length pt = 2%nat /\ List.length eta = 2%nat /\
     List.length phi = 2%nat /\ List.length mass = 2%nat /\
     exists m, dimuon_mass_fn pair_mass pt eta phi mass = Ok m) /\
  oppSign e <> Undefined /\
  fill_row pair_mass e <> Undefined.
Proof.
  intros Hsz Htwo.
  destruct (twoMuons_inv e Hsz Htwo) as (mask & i & j & Hm & _ & _ & _ & Hp).
  set (z := S754_zero false).
  split; [|split; [|split; [|split]]].
  - intros ch Hch. unfold goodMuon_charge in Hch.
    rewrite Hm in Hch. cbn [bind] in Hch.
    destruct (masked_pair 0 _ _ _ _ _ Hp Hch) as [_ ->].
    split; [reflexivity|]. eexists. apply oppSign_fn_pair.
  - intros pt Hpt. unfold goodMuon_pt in Hpt.
    rewrite Hm in Hpt. cbn [bind] in Hpt.
    destruct (masked_pair z _ _ _ _ _ Hp Hpt) as [_ ->].
    split; [reflexivity|]. split; eexists; reflexivity.
  - intros pt eta phi mass Hpt Heta Hphi Hmass.
    unfold goodMuon_pt in Hpt. unfold goodMuon_eta in Heta.
    unfold goodMuon_phi in Hphi. unfold goodMuon_mass in Hmass.
    rewrite Hm in Hpt, Heta, Hphi, Hmass.
    cbn [bind] in Hpt, Heta, Hphi, Hmass.
    destruct (masked_pair z _ _ _ _ _ Hp Hpt) as [_ ->].
    destruct (masked_pair z _ _ _ _ _ Hp Heta) as [_ ->].
    destruct (masked_pair z _ _ _ _ _ Hp Hphi) as [_ ->].
    destruct (masked_pair z _ _ _ _ _ Hp Hmass) as [_ ->].
    repeat (split; [reflexivity|]).
    eexists. apply dimuon_mass_fn_pair.
  - apply oppSign_defined; assumption.
  - apply fill_row_defined; assumption.
Qed.

End SelectionProperties.

(** ** The event loop and its counters *)

Lemma add_counter_assoc a b c :
  add_counter (add_counter a b) c = add_counter a (add_counter b c).
Proof. unfold add_counter; simpl. f_equal; lia. Qed.

Lemma add_counter_zero_l a : add_counter no_count a = a.
Proof. destruct a. reflexivity. Qed.

Lemma add_counter_zero_r a : add_counter a no_count = a.
Proof. destruct a. unfold add_counter; simpl. f_equal; lia. Qed.

Lemma merge_states_assoc a b c :
  merge_states (merge_states a b) c = merge_states a (merge_states b c).
Proof.
  unfold merge_states; simpl.
  rewrite !add_counter_assoc, app_assoc. reflexivity.
Qed.

Lemma merge_init_l a : merge_states init_state a = a.
Proof.
  destruct a. unfold merge_states; simpl.
  rewrite !add_counter_zero_l. reflexivity.
Qed.

Lemma merge_init_r a : merge_states a init_state = a.
Proof.
  destruct a. unfold merge_states; simpl.
  rewrite !add_counter_zero_r, app_nil_r. reflexivity.
Qed.

Lemma accept_as_sum c : accept c = add_counter c (accept no_count).
Proof. destruct c. unfold accept, add_counter; simpl. f_equal; lia. Qed.

Lemma reject_as_sum c : reject c = add_counter c (reject no_count).
Proof. destruct c. unfold reject, add_counter; simpl. f_equal; lia. Qed.

(** Recording a row adds the row's own counts to the state. *)
Lemma record_row_merge st o :
  record_row st o = merge_states st (record_row init_state o).
Proof.
  destruct st as [t p c f]. destruct o; unfold record_row, merge_states;
    cbn [cnt_trigger cnt_twoMuons cnt_oppSign fills init_state];
    rewrite ?add_counter_zero_r, ?app_nil_r;
    rewrite <- ?accept_as_sum, <- ?reject_as_sum; reflexivity.
Qed.

Lemma bind_assoc {A B C : Type} (c : result A) (f : A -> result B)
    (g : B -> result C) :
  bind (bind c f) g = bind c (fun a => bind (f a) g).
Proof. destruct c; reflexivity. Qed.

Lemma bind_ext {A B : Type} (c : result A) (f g : A -> result B) :
  (forall a, f a = g a) -> bind c f = bind c g.
Proof. intros H. destruct c; simpl; auto. Qed.

Lemma bind_ret {A : Type} (c : result A) : bind c Ok = c.
Proof. destruct c; reflexivity. Qed.

Section LoopProperties.

Variable pair_mass : PtEtaPhiM -> PtEtaPhiM -> Float_t.

(** A loop started from [st0] is the loop started from empty counters,
  merged into [st0]. *)
Lemma event_loop_from rows : forall st0,
event_loop pair_mass rows st0 =
(t <- event_loop pair_mass rows init_state ;; Ok (merge_states st0 t)).
Proof.
induction rows as [|e rest IH]; intros st0.
- simpl. now rewrite merge_init_r.
- cbn [event_loop]. unfold step.
  rewrite !bind_assoc.
  destruct (eval_row pair_mass e) as [o| |]; cbn [bind]; try reflexivity.
  rewrite (IH (record_row st0 o)), (IH (record_row init_state o)).
  rewrite bind_assoc. apply bind_ext. intros t. cbn [bind].
  rewrite (record_row_merge st0 o), merge_states_assoc. reflexivity.
Qed.

Lemma event_loop_app a : forall b st0,
event_loop pair_mass (a ++ b) st0 =
(s <- event_loop pair_mass a st0 ;; event_loop pair_mass b s).
Proof.
induction a as [|e a IH]; intros b st0; [reflexivity|].
cbn [app event_loop]. rewrite bind_assoc.
apply bind_ext. intros st. apply IH.
Qed.

(** Contiguous slots give the state of the sequential loop. *)
Lemma run_slots_concat parts :
run_slots pair_mass parts = event_loop pair_mass (concat parts) init_state.
Proof.
induction parts as [|p rest IH]; [reflexivity|].
cbn [run_slots concat]. rewrite event_loop_app.
apply bind_ext. intros s. rewrite (event_loop_from (concat rest) s), IH.
reflexivity.
Qed.

(** *** Counting rows *)

Lemma count_rows_cons f e rows :
  count_rows f (e :: rows) = Z.b2z (f e) + count_rows f rows.
Proof.
  unfold count_rows. cbn [filter].
  destruct (f e); cbn [List.length Z.b2z]; lia.
Qed.

Lemma count_rows_nonneg f rows : 0 <= count_rows f rows.
Proof. unfold count_rows. lia. Qed.

Lemma count_rows_le_length f rows :
  count_rows f rows <= Z.of_nat (List.length rows).
Proof. unfold count_rows. apply inj_le, filter_length_le. Qed.

Lemma count_rows_mono f g rows :
  (forall e, f e = true -> g e = true) ->
  count_rows f rows <= count_rows g rows.
Proof.
  intros H. induction rows as [|e rows IH].
  - unfold count_rows. simpl. lia.
  - rewrite !count_rows_cons. specialize (H e).
    destruct (f e), (g e); cbn [Z.b2z]; lia.
Qed.

Lemma count_rows_permutation f rows rows' :
  Permutation rows rows' -> count_rows f rows = count_rows f rows'.
Proof.
  induction 1 as [|x l l' _ IH|x y l|l l' l'' _ IH1 _ IH2].
  - reflexivity.
  - rewrite !count_rows_cons. lia.
  - rewrite !count_rows_cons. lia.
  - congruence.
Qed.

Lemma expected_cutflow_permutation rows rows' :
  Permutation rows rows' -> expected_cutflow rows = expected_cutflow rows'.
Proof.
  intros H. unfold expected_cutflow.
  rewrite (Permutation_length H).
  rewrite (count_rows_permutation passed_trigger _ _ H).
  rewrite (count_rows_permutation passed_twoMuons _ _ H).
  rewrite (count_rows_permutation passed_oppSign _ _ H).
  reflexivity.
Qed.

(** *** Where a row stops *)

Lemma eval_row_outcome e o :
  eval_row pair_mass e = Ok o ->
  match o with
  | FailTrigger => passed_trigger e = false
  | FailTwoMuons => passed_trigger e = true /\ passed_twoMuons e = false
  | FailOppSign => passed_twoMuons e = true /\ passed_oppSign e = false
  | Selected f => passed_oppSign e = true /\ fill_row pair_mass e = Ok f
  end.
Proof.
  unfold eval_row, passed_oppSign, passed_twoMuons, passed_trigger.
  destruct (passTrigger e); cbn [negb andb].
  2:{ intros H. injection H as <-. reflexivity. }
  destruct (twoMuons e) as [[|]| |]; cbn [bind negb holds andb];
    try discriminate.
  2:{ intros H. injection H as <-. auto. }
  destruct (oppSign e) as [[|]| |]; cbn [bind negb holds andb];
    try discriminate.
  2:{ intros H. injection H as <-. auto. }
  destruct (fill_row pair_mass e) as [f| |]; cbn [bind]; try discriminate.
  intros H. injection H as <-. auto.
Qed.

Lemma passed_twoMuons_trigger e :
  passed_twoMuons e = true -> passed_trigger e = true.
Proof. unfold passed_twoMuons. intros H. now apply andb_true_iff in H. Qed.

Lemma passed_oppSign_twoMuons e :
  passed_oppSign e = true -> passed_twoMuons e = true.
Proof. unfold passed_oppSign. intros H. now apply andb_true_iff in H. Qed.

(** The counters of one recorded row. *)
Lemma record_row_report e o :
  eval_row pair_mass e = Ok o ->
  Report (record_row init_state o) = expected_cutflow [e].
Proof.
  intros H. apply eval_row_outcome in H.
  unfold expected_cutflow. rewrite !count_rows_cons.
  unfold count_rows. cbn [filter List.length Z.of_nat].
  destruct o.
  - rewrite H.
    assert (H2 : passed_twoMuons e = false).
    { destruct (passed_twoMuons e) eqn:E; [|reflexivity].
      apply passed_twoMuons_trigger in E. congruence. }
    assert (H3 : passed_oppSign e = false).
    { destruct (passed_oppSign e) eqn:E; [|reflexivity].
      apply passed_oppSign_twoMuons in E. congruence. }
    rewrite H2, H3. reflexivity.
  - destruct H as [H1 H2]. rewrite H1, H2.
    assert (H3 : passed_oppSign e = false).
    { destruct (passed_oppSign e) eqn:E; [|reflexivity].
      apply passed_oppSign_twoMuons in E. congruence. }
    rewrite H3. reflexivity.
  - destruct H as [H2 H3]. rewrite H2, H3.
    rewrite (passed_twoMuons_trigger _ H2). reflexivity.
  - destruct H as [H3 _]. rewrite H3.
    pose proof (passed_oppSign_twoMuons _ H3) as H2. rewrite H2.
    rewrite (passed_twoMuons_trigger _ H2). reflexivity.
Qed.

Ltac cut_list_eq :=
  repeat match goal with
         | |- _ :: _ = _ :: _ => f_equal
         | |- mkCut _ _ _ = mkCut _ _ _ => f_equal; lia
         end.

Lemma Report_merge a b :
  Report (merge_states a b) =
  map (fun p => add_cut (fst p) (snd p)) (combine (Report a) (Report b)).
Proof.
  unfold Report, merge_states, cut_of, add_cut, add_counter; simpl.
  cut_list_eq.
Qed.

Lemma expected_cutflow_cons e rows :
  expected_cutflow (e :: rows) =
  map (fun p => add_cut (fst p) (snd p))
      (combine (expected_cutflow [e]) (expected_cutflow rows)).
Proof.
  unfold expected_cutflow, add_cut. rewrite !count_rows_cons.
  unfold count_rows.
  cbn [filter List.length map combine fst snd cut_name cut_pass cut_all].
  cut_list_eq.
Qed.

(** The report of a completed loop counts, per filter, the rows that
    reached and passed it. *)
Lemma event_loop_report rows : forall st,
  event_loop pair_mass rows init_state = Ok st ->
  Report st = expected_cutflow rows.
Proof.
  induction rows as [|e rest IH]; intros st H.
  - injection H as <-. reflexivity.
  - cbn [event_loop] in H. unfold step in H.
    destruct (eval_row pair_mass e) as [o| |] eqn:Ho; try discriminate.
    cbn [bind] in H. rewrite event_loop_from in H.
    destruct (event_loop pair_mass rest init_state) as [t| |]; try discriminate.
    cbn [bind] in H. injection H as <-.
    rewrite Report_merge, (IH t eq_refl), (record_row_report e o Ho).
    symmetry. apply expected_cutflow_cons.
Qed.

(** A loop completes exactly when every row evaluates. *)
Lemma event_loop_is_ok rows : forall st0,
  is_ok (event_loop pair_mass rows st0) =
  forallb (fun e => is_ok (eval_row pair_mass e)) rows.
Proof.
  induction rows as [|e rest IH]; intros st0; [reflexivity|].
  cbn [event_loop forallb]. unfold step.
  destruct (eval_row pair_mass e); cbn [bind is_ok andb]; auto.
Qed.

Lemma forallb_permutation {A : Type} (f : A -> bool) l l' :
  Permutation l l' -> forallb f l = forallb f l'.
Proof.
  induction 1 as [|x l l' _ IH|x y l|l l' l'' _ IH1 _ IH2]; simpl.
  - reflexivity.
  - now rewrite IH.
  - destruct (f x), (f y); reflexivity.
  - congruence.
Qed.

Lemma cutflow_expected rows :
  cutflow (event_loop pair_mass rows init_state) =
  if forallb (fun e => is_ok (eval_row pair_mass e)) rows
  then Some (expected_cutflow rows) else None.
Proof.
  rewrite <- (event_loop_is_ok rows init_state).
  destruct (event_loop pair_mass rows init_state) as [st| |] eqn:E;
    cbn [cutflow is_ok]; try reflexivity.
  f_equal. apply event_loop_report. exact E.
Qed.

(** The counters do not depend on the order of the rows. *)
Lemma cutflow_permutation rows rows' :
  Permutation rows rows' ->
  cutflow (event_loop pair_mass rows init_state) =
  cutflow (event_loop pair_mass rows' init_state).
Proof.
  intros H. rewrite !cutflow_expected.
  rewrite (forallb_permutation _ _ _ H), (expected_cutflow_permutation _ _ H).
  reflexivity.
Qed.

Lemma run_slots_cutflow parts rows :
  Permutation (concat parts) rows ->
  cutflow (run_slots pair_mass parts) =
  cutflow (event_loop pair_mass rows init_state).
Proof.
  intros H. rewrite run_slots_concat. apply cutflow_permutation. exact H.
Qed.

(** ** DimuonAnalysis::run *)

Lemma Range_single_thread {A : Type} (n : Z) (rows : list A) :
  0 <= n ->
  Range false 0 n rows =
  Ok (if n =? 0 then rows else firstn (Z.to_nat n) rows).
Proof.
  intros Hn. unfold Range.
  assert (E : (n <? 0) = false) by (apply Z.ltb_ge; exact Hn).
  rewrite E, andb_false_r. destruct (n =? 0); reflexivity.
Qed.

Lemma to_unsigned_int_range n : 0 <= to_unsigned_int n < 2 ^ 32.
Proof. unfold to_unsigned_int. apply Z.mod_pos_bound. lia. Qed.

(** The rows that enter the chain. *)
Lemma run_entries config w s :
  run pair_mass config w = Ok s ->
  exists df,
    tree w (inputFile config) = Some df /\
    match maxEvents config with
    | None => implicitMT s = true /\ entries s = df
    | Some n =>
        implicitMT s = false /\
        entries s = (if to_unsigned_int n =? 0 then df
                     else firstn (Z.to_nat (to_unsigned_int n)) df)
    end.
Proof.
  unfold run. intros H.
  destruct (tree w (inputFile config)) as [df|]; [|discriminate].
  exists df. split; [reflexivity|]. cbn [bind] in H.
  destruct (maxEvents config) as [n|]; cbn [bind] in H.
  - rewrite Range_single_thread in H by apply to_unsigned_int_range.
    cbn [bind] in H.
    destruct (event_loop pair_mass _ init_state); try discriminate.
    cbn [bind] in H. injection H as <-. split; reflexivity.
  - destruct (run_slots pair_mass (slots w df)); try discriminate.
    cbn [bind] in H. injection H as <-. split; reflexivity.
Qed.

(** The counters of a run are those of the sequential loop over the rows
    that enter the chain. *)
Lemma run_cutflow_sequential config w :
  fair_slots w ->
  run_cutflow (run pair_mass config w) =
  match tree w (inputFile config) with
  | None => None
  | Some df =>
      match maxEvents config with
      | None => cutflow (event_loop pair_mass df init_state)
      | Some n =>
          cutflow (event_loop pair_mass
                     (if to_unsigned_int n =? 0 then df
                      else firstn (Z.to_nat (to_unsigned_int n)) df)
                     init_state)
      end
  end.
Proof.
  intros Hfair. unfold run.
  destruct (tree w (inputFile config)) as [df|]; [|reflexivity].
  cbn [bind].
  destruct (maxEvents config) as [n|]; cbn [bind].
  - rewrite Range_single_thread by apply to_unsigned_int_range.
    cbn [bind].
    destruct (event_loop pair_mass _ init_state); reflexivity.
  - rewrite <- (run_slots_cutflow (slots w df) df (Hfair df)).
    destruct (run_slots pair_mass (slots w df)); reflexivity.
Qed.

Lemma run_final_report config w s :
  fair_slots w ->
  run pair_mass config w = Ok s ->
  Report (final s) = expected_cutflow (entries s).
Proof.
  intros Hfair H. unfold run in H.
  destruct (tree w (inputFile config)) as [df|]; [|discriminate].
  cbn [bind] in H.
  destruct (maxEvents config) as [n|]; cbn [bind] in H.
  - rewrite Range_single_thread in H by apply to_unsigned_int_range.
    cbn [bind] in H.
    destruct (event_loop pair_mass _ init_state) as [st| |] eqn:E;
      try discriminate.
    cbn [bind] in H. injection H as <-. cbn [final entries].
    apply event_loop_report. exact E.
  - pose proof (run_slots_cutflow (slots w df) df (Hfair df)) as Hc.
    destruct (run_slots pair_mass (slots w df)) as [st| |] eqn:E;
      try discriminate.
    cbn [bind] in H. injection H as <-. cbn [final entries].
    rewrite cutflow_expected in Hc. cbn [cutflow] in Hc.
    destruct (forallb _ df); [|discriminate].
    congruence.
Qed.

(** ** Cutflow *)

(** C7. The report of a completed run lists the three filters in the
    order they were booked (trigger, exactly two good muons, opposite
    sign); each pass count is the number of rows that reached that filter
    and passed it, each [all] is the pass count of the filter before
    (the number of rows for the first), and the pass counts do not
    increase along the list.  A row failing a filter ends there: the
    filters and columns after it are not computed for that row. *)
Theorem cutflow_report_ordered (config : AnalysisConfig) (w : World)
    (s : RunSummary) :
  fair_slots w ->
  run pair_mass config w = Ok s ->
  Report (final s) = expected_cutflow (entries s) /\
  map cut_name (Report (final s)) =
    [trigger_label; twoMuons_label; oppSign_label] /\
  (exists p1 p2 p3,
     map cut_pass (Report (final s)) = [p1; p2; p3] /\
     Z.of_nat (List.length (entries s)) >= p1 /\
     p1 >= p2 /\ p2 >= p3 /\ p3 >= 0) /\
  (forall e, passTrigger e = false ->
     eval_row pair_mass e = Ok FailTrigger) /\
  (forall e, passTrigger e = true -> twoMuons e = Ok false ->
     eval_row pair_mass e = Ok FailTwoMuons) /\
  (forall e, passTrigger e = true -> twoMuons e = Ok true ->
     oppSign e = Ok false -> eval_row pair_mass e = Ok FailOppSign).
Proof.
  intros Hfair Hrun.
  pose proof (run_final_report config w s Hfair Hrun) as Hrep.
  split; [exact Hrep|]. rewrite Hrep. split; [reflexivity|]. split.
  - exists (count_rows passed_trigger (entries s)),
           (count_rows passed_twoMuons (entries s)),
           (count_rows passed_oppSign (entries s)).
    split; [reflexivity|].
    pose proof (count_rows_le_length passed_trigger (entries s)).
    pose proof (count_rows_mono passed_twoMuons passed_trigger (entries s)
                  passed_twoMuons_trigger).
    pose proof (count_rows_mono passed_oppSign passed_twoMuons (entries s)
                  passed_oppSign_twoMuons).
    pose proof (count_rows_nonneg passed_oppSign (entries s)).
    lia.
  - repeat split.
    + intros e He. unfold eval_row. rewrite He. reflexivity.
    + intros e He Ht. unfold eval_row. rewrite He, Ht. reflexivity.
    + intros e He Ht Ho. unfold eval_row. rewrite He, Ht, Ho. reflexivity.
Qed.

(** ** Determinism of the counters *)

(** C8. Two runs on the same input report the same cutflow counters,
    however the entries are handed to the slots; the counters merged
    from any number of slots are those of the sequential loop, and the
    merge of one more slot adds its counters entry by entry. *)
Theorem cutflow_counters_deterministic (config : AnalysisConfig)
    (w1 w2 : World) :
  fair_slots w1 -> fair_slots w2 ->
  tree w1 (inputFile config) = tree w2 (inputFile config) ->
  run_cutflow (run pair_mass config w1) =
  run_cutflow (run pair_mass config w2) /\
  (forall parts rows, Permutation (concat parts) rows ->
     cutflow (run_slots pair_mass parts) =
     cutflow (event_loop pair_mass rows init_state)) /\
  (forall p rest s r,
     event_loop pair_mass p init_state = Ok s ->
     run_slots pair_mass rest = Ok r ->
     cutflow (run_slots pair_mass (p :: rest)) =
     Some (map (fun c => add_cut (fst c) (snd c))
             (combine (Report s) (Report r)))).
Proof.
  intros H1 H2 Ht. split; [|split].
  - rewrite !run_cutflow_sequential by assumption. rewrite Ht. reflexivity.
  - apply run_slots_cutflow.
  - intros p rest s r Hs Hr. cbn [run_slots]. rewrite Hs, Hr. cbn [bind cutflow].
    now rewrite Report_merge.
Qed.

(** ** Row limit *)

(** What [run] does with the row limit: implicit multi-threading is
    enabled exactly when no limit is set, and a limit [n] whose value as
    an [unsigned int] is not zero restricts the chain to the first
    entries. *)
Lemma run_row_limit config w s n :
  maxEvents config = Some n ->
  0 < n < 2 ^ 32 ->
  run pair_mass config w = Ok s ->
  implicitMT s = false /\
  exists df, tree w (inputFile config) = Some df /\
             entries s = first_events n df.
Proof.
  intros Hn Hr Hrun. destruct (run_entries config w s Hrun) as (df & Hdf & H).
  rewrite Hn in H. destruct H as [Hmt He]. split; [exact Hmt|].
  exists df. split; [exact Hdf|].
  unfold to_unsigned_int in He. rewrite Z.mod_small in He by lia.
  assert (E : (n =? 0) = false) by (apply Z.eqb_neq; lia).
  rewrite E in He. exact He.
Qed.

Lemma run_no_limit config w s :
  maxEvents config = None ->
  run pair_mass config w = Ok s ->
  implicitMT s = true /\ tree w (inputFile config) = Some (entries s).
Proof.
  intros Hn Hrun. destruct (run_entries config w s Hrun) as (df & Hdf & H).
  rewrite Hn in H. destruct H as [Hmt ->]. auto.
Qed.

(** C6. With the row limit set to zero the run is single-threaded but
    the chain receives every row of the source, not the first zero rows:
    [Range(0, 0)] ranges to the end of the dataset. *)
Theorem row_limit_zero_reads_all (config : AnalysisConfig) (w : World)
    (s : RunSummary) :
  maxEvents config = Some 0 ->
  run pair_mass config w = Ok s ->
  implicitMT s = false /\
  tree w (inputFile config) = Some (entries s) /\
  (entries s <> [] -> entries s <> first_events 0 (entries s)).
Proof.
  intros Hn Hrun. destruct (run_entries config w s Hrun) as (df & Hdf & H).
  rewrite Hn in H. destruct H as [Hmt He].
  change (to_unsigned_int 0 =? 0) with true in He. cbv iota in He.
  subst df. repeat split; try assumption.
  intros Hne Heq. apply Hne. rewrite Heq. reflexivity.
Qed.

End LoopProperties.

(** ** The driver *)

Section DriverProperties.

Variable pair_mass : PtEtaPhiM -> PtEtaPhiM -> Float_t.
Variable atoll : string -> Z.

Lemma firstn_incl {A : Type} (n : nat) (l : list A) x :
  In x (firstn n l) -> In x l.
Proof.
  intros H. rewrite <- (firstn_skipn n l). apply in_or_app. left. exact H.
Qed.

Lemma event_loop_defined rows : forall st,
  (forall e, In e rows -> well_sized e) ->
  event_loop pair_mass rows st <> Undefined.
Proof.
  induction rows as [|e rest IH]; intros st Hs; [discriminate|].
  cbn [event_loop]. unfold step.
  pose proof (eval_row_defined pair_mass e (Hs e (or_introl eq_refl))) as He.
  destruct (eval_row pair_mass e) as [o| |]; cbn [bind];
    try discriminate; try congruence.
  apply IH. intros e' He'. apply Hs. right. exact He'.
Qed.

Lemma run_defined config w :
  fair_slots w -> sized_world w ->
  run pair_mass config w <> Undefined.
Proof.
  intros Hfair Hsized. unfold run.
  destruct (tree w (inputFile config)) as [df|] eqn:Hdf; [|discriminate].
  cbn [bind].
  destruct (maxEvents config) as [n|]; cbn [bind].
  - rewrite Range_single_thread by apply to_unsigned_int_range.
    cbn [bind].
    match goal with
    | |- context [event_loop pair_mass ?node init_state] =>
        pose proof (event_loop_defined node init_state) as Hd;
        destruct (event_loop pair_mass node init_state); cbn [bind];
        try discriminate
    end.
    intros _. apply Hd; [|reflexivity].
    intros e He. apply (Hsized _ _ _ Hdf).
    destruct (to_unsigned_int n =? 0); [exact He|].
    eapply firstn_incl; exact He.
  - rewrite run_slots_concat.
    pose proof (event_loop_defined (concat (slots w df)) init_state) as Hd.
    destruct (event_loop pair_mass (concat (slots w df)) init_state);
      cbn [bind]; try discriminate.
    intros _. apply Hd; [|reflexivity].
    intros e He. apply (Hsized _ _ _ Hdf).
    eapply Permutation_in; [apply Hfair | exact He].
Qed.

Lemma stored_not_help r : help_option r = true -> stored_option r = false.
Proof.
  unfold help_option, stored_option. intros H. apply Z.eqb_eq in H.
  rewrite H. reflexivity.
Qed.

Lemma parse_loop_stored r rest config :
  stored_option r = true ->
  exists config', parse_loop atoll (r :: rest) config =
                  parse_loop atoll rest config'.
Proof.
  unfold stored_option. intros H. cbn [parse_loop].
  destruct (opt r =? chr "i"); [eauto|].
  destruct (opt r =? chr "o"); [eauto|].
  destruct (opt r =? chr "d"); [eauto|].
  destruct (opt r =? chr "n"); [eauto|].
  discriminate.
Qed.

Lemma parse_loop_stop pre : forall r post config,
  forallb stored_option pre = true ->
  stored_option r = false ->
  parse_loop atoll (pre ++ r :: post) config =
  Exit (if help_option r then 0 else 1).
Proof.
  induction pre as [|x pre IH]; intros r post config Hpre Hr.
  - cbn [app parse_loop]. unfold stored_option in Hr.
    apply orb_false_iff in Hr as [Hr Hn].
    apply orb_false_iff in Hr as [Hr Hd].
    apply orb_false_iff in Hr as [Hi Ho].
    rewrite Hi, Ho, Hd, Hn. reflexivity.
  - cbn [forallb] in Hpre. apply andb_true_iff in Hpre as [Hx Hpre].
    cbn [app].
    destruct (parse_loop_stored x (pre ++ r :: post) config Hx) as [c' ->].
    apply IH; assumption.
Qed.

Lemma parse_loop_return rs : forall config,
  forallb stored_option rs = true ->
  exists config', parse_loop atoll rs config = Return config'.
Proof.
  induction rs as [|x rs IH]; intros config H.
  - exists config. reflexivity.
  - cbn [forallb] in H. apply andb_true_iff in H as [Hx H].
    destruct (parse_loop_stored x rs config Hx) as [c' ->].
    apply IH. exact H.
Qed.

(** A command line is stored as a whole, or has a first option that ends
    the program. *)
Lemma command_line_cases (rs : list GetoptReturn) :
  forallb stored_option rs = true \/
  exists pre r post,
    rs = pre ++ r :: post /\ forallb stored_option pre = true /\
    stored_option r = false.
Proof.
  induction rs as [|x rs IH]; [left; reflexivity|].
  destruct (stored_option x) eqn:Hx.
  - destruct IH as [IH | (pre & r & post & -> & Hpre & Hr)].
    + left. cbn [forallb]. rewrite Hx, IH. reflexivity.
    + right. exists (x :: pre), r, post. cbn [forallb app].
      rewrite Hx, Hpre. auto.
  - right. exists [], x, rs. auto.
Qed.

Lemma stored_prefix_element pre r post :
  forallb stored_option (pre ++ r :: post) = true -> stored_option r = true.
Proof.
  rewrite forallb_app. cbn [forallb]. intros H.
  apply andb_true_iff in H as [_ H]. now apply andb_true_iff in H.
Qed.

(** C9, as the code has it.  The program ends with code 0 or 1.  It ends
    with 1 exactly when [getopt_long] rejects an option of the command
    line (before any help option) or an exception leaves the analysis,
    and with 0 exactly when help was asked for or the analysis completed.
    The argument of an accepted option never makes the program fail:
    whatever [atoll] returns for the argument of [-n] is taken as the
    row limit. *)
Theorem main_exit_code (rs : list GetoptReturn) (w : World) :
  fair_slots w -> sized_world w ->
  (main pair_mass atoll rs w = Ok 0 \/ main pair_mass atoll rs w = Ok 1) /\
  (main pair_mass atoll rs w = Ok 1 <->
     option_rejected rs \/
     exists config what,
       parseArgs atoll rs = Return config /\
       run pair_mass config w = Throw what) /\
  (main pair_mass atoll rs w = Ok 0 <->
     help_requested rs \/
     exists config s,
       parseArgs atoll rs = Return config /\
       run pair_mass config w = Ok s).
Proof.
  intros Hfair Hsized. unfold main, parseArgs.
  destruct (command_line_cases rs) as [Hall | (pre & r & post & -> & Hpre & Hr)].
  - destruct (parse_loop_return rs default_config Hall) as [c ->].
    pose proof (run_defined c w Hfair Hsized) as Hd.
    assert (Hno : forall pre r post, rs = pre ++ r :: post ->
                  stored_option r = false -> False).
    { intros pre r post -> Hr. apply stored_prefix_element in Hall. congruence. }
    destruct (run pair_mass c w) as [s|what|] eqn:Hrun; [| |congruence].
    + split; [left; reflexivity|]. split; split.
      * discriminate.
      * intros [(pre & r & post & E & _ & Hr & _) | (c' & what & Hc & Ht)].
        -- exfalso. eapply Hno; eauto.
        -- injection Hc as <-. congruence.
      * intros _. right. exists c, s. auto.
      * reflexivity.
    + split; [right; reflexivity|]. split; split.
      * intros _. right. exists c, what. auto.
      * reflexivity.
      * discriminate.
      * intros [(pre & r & post & E & _ & Hr) | (c' & s & Hc & Ht)].
        -- exfalso. eapply Hno; eauto using stored_not_help.
        -- injection Hc as <-. congruence.
  - rewrite (parse_loop_stop pre r post default_config Hpre Hr).
    destruct (help_option r) eqn:Hh.
    + split; [left; reflexivity|]. split; split.
      * discriminate.
      * intros [(pre' & r' & post' & E & Hpre' & Hr' & Hh') | (c & what & Hc & _)].
        -- pose proof (parse_loop_stop pre r post default_config Hpre Hr) as P1.
           rewrite E in P1.
           rewrite (parse_loop_stop pre' r' post' default_config Hpre' Hr') in P1.
           rewrite Hh, Hh' in P1. discriminate.
        -- discriminate Hc.
      * intros _. left. exists pre, r, post. auto.
      * reflexivity.
    + split; [right; reflexivity|]. split; split.
      * intros _. left. exists pre, r, post. auto.
      * reflexivity.
      * discriminate.
      * intros [(pre' & r' & post' & E & Hpre' & Hh') | (c & s & Hc & _)].
        -- pose proof (parse_loop_stop pre r post default_config Hpre Hr) as P1.
           rewrite E in P1.
           rewrite (parse_loop_stop pre' r' post' default_config Hpre'
                      (stored_not_help _ Hh')) in P1.
           rewrite Hh, Hh' in P1. discriminate.
        -- discriminate Hc.
Qed.

End DriverProperties.

(** ** Worked rows *)

Example scenario1_selected :
  nGoodMuon scenario1 = Ok 2 /\ twoMuons scenario1 = Ok true /\
  oppSign scenario1 = Ok true /\
  is_ok (eval_row zero_mass scenario1) = true.
Proof. vm_compute. repeat split. Qed.

Example scenario2_fails_trigger :
  eval_row zero_mass scenario2 = Ok FailTrigger /\
  Report (record_row init_state FailTrigger) =
    [ mkCut trigger_label 0 1; mkCut twoMuons_label 0 0;
      mkCut oppSign_label 0 0 ].
Proof. split; reflexivity. Qed.

Example scenario3_fails_pair :
  nGoodMuon scenario3 = Ok 3 /\
  eval_row zero_mass scenario3 = Ok FailTwoMuons /\
  Report (record_row init_state FailTwoMuons) =
    [ mkCut trigger_label 1 1; mkCut twoMuons_label 0 1;
      mkCut oppSign_label 0 0 ].
Proof. vm_compute. repeat split. Qed.

Example scenario4_fails_charge :
  nGoodMuon scenario4 = Ok 2 /\
  eval_row zero_mass scenario4 = Ok FailOppSign /\
  Report (record_row init_state FailOppSign) =
    [ mkCut trigger_label 1 1; mkCut twoMuons_label 1 1;
      mkCut oppSign_label 0 1 ].
Proof. vm_compute. repeat split. Qed.

(** The first masked muon need not carry the larger momentum. *)
Example leading_muon_is_positional :
  goodMuon_mask soft_middle = Ok [1; 0; 1] /\
  muon1_pt soft_middle = Ok (float_of_Z 40) /\
  muon2_pt soft_middle = Ok (float_of_Z 45) /\
  SFltb (float_of_Z 40) (float_of_Z 45) = true.
Proof. vm_compute. repeat split. Qed.

Example demo_cutflow :
  Report (final demo_summary) =
    [ mkCut trigger_label 4 5; mkCut twoMuons_label 3 4;
      mkCut oppSign_label 2 3 ].
Proof. reflexivity. Qed.

Example Range_keeps_first_two :
  Range false 0 2 [1; 2; 3] = Ok [1; 2] /\
  Range false 0 0 [1; 2; 3] = Ok [1; 2; 3] /\
  Range false 0 (to_unsigned_int (2 ^ 32 + 1)) [1; 2; 3] = Ok [1].
Proof. repeat split. Qed.

Example limited_run_is_sequential :
  implicitMT demo_summary_three = false /\
  entries demo_summary_three = first_events 3 demo_rows /\
  implicitMT demo_summary = true /\
  entries demo_summary = demo_rows.
Proof. repeat split. Qed.

Lemma demo_world_fair : fair_slots demo_world.
Proof.
  intros rows. unfold demo_world, two_slots. cbn [slots concat].
  rewrite app_nil_r, firstn_skipn. apply Permutation_refl.
Qed.

Lemma reversed_world_fair : fair_slots reversed_world.
Proof.
  intros rows. unfold reversed_world. cbn [slots concat].
  rewrite app_nil_r. apply Permutation_sym, Permutation_rev.
Qed.

Lemma demo_rows_sized e : In e demo_rows -> well_sized e.
Proof.
  intros H. unfold demo_rows in H. cbn [In] in H.
  repeat (destruct H as [<- | H]; [vm_compute; discriminate|]).
  destruct H.
Qed.

Lemma demo_world_sized : sized_world demo_world.
Proof.
  intros path rows e Hrows He. unfold demo_world in Hrows. cbn [tree] in Hrows.
  injection Hrows as <-. apply demo_rows_sized. exact He.
Qed.

Lemma goodMuon_mask_elementwise_witness :
  aligned_muons soft_middle /\
  well_sized soft_middle /\
  exists mask,
    goodMuon_mask soft_middle = Ok mask /\
    List.length mask = List.length (Muon_pt soft_middle) /\
    nGoodMuon soft_middle = Ok (true_count mask).
Proof.
  assert (Ha : aligned_muons soft_middle) by (repeat split).
  assert (Hs : well_sized soft_middle) by (vm_compute; discriminate).
  destruct (goodMuon_mask_elementwise soft_middle Ha Hs)
    as (mask & Hm & Hl & _ & _ & Hn).
  exact (conj Ha (conj Hs (ex_intro _ mask (conj Hm (conj Hl Hn))))).
Defined.

Lemma pair_and_charge_filters_witness :
  well_sized soft_middle /\
  twoMuons soft_middle = Ok true /\
  exists mask i j,
    goodMuon_mask soft_middle = Ok mask /\ nGoodMuon soft_middle = Ok 2 /\
    true_count mask = 2 /\ true_positions mask = [i; j] /\ (i < j)%nat /\
    (forall d, goodMuon_pt soft_middle =
               Ok [nth i (Muon_pt soft_middle) d;
                   nth j (Muon_pt soft_middle) d]) /\
    (oppSign soft_middle = Ok true ->
       exists ci cj,
         nth_error (Muon_charge soft_middle) i = Some ci /\
         nth_error (Muon_charge soft_middle) j = Some cj /\
         goodMuon_charge soft_middle = Ok [ci; cj] /\
         int_mul ci cj < 0 /\ (in_Int (ci * cj) -> ci * cj < 0)).
Proof.
  assert (Hs : well_sized soft_middle) by (vm_compute; discriminate).
  assert (Ht : twoMuons soft_middle = Ok true) by (vm_compute; reflexivity).
  exact (conj Hs (conj Ht (pair_and_charge_filters soft_middle Hs Ht))).
Defined.

Lemma masked_accesses_in_bounds_witness :
  well_sized scenario1 /\
  twoMuons scenario1 = Ok true /\
  oppSign scenario1 <> Undefined /\
  fill_row zero_mass scenario1 <> Undefined.
Proof.
  assert (Hs : well_sized scenario1) by (vm_compute; discriminate).
  assert (Ht : twoMuons scenario1 = Ok true) by (vm_compute; reflexivity).
  pose proof (masked_accesses_in_bounds zero_mass scenario1 Hs Ht)
    as (_ & _ & _ & Ho & Hf).
  exact (conj Hs (conj Ht (conj Ho Hf))).
Defined.

Lemma cutflow_report_ordered_witness :
  fair_slots demo_world /\
  run zero_mass default_config demo_world = Ok demo_summary /\
  Report (final demo_summary) = expected_cutflow (entries demo_summary) /\
  map cut_name (Report (final demo_summary)) =
    [trigger_label; twoMuons_label; oppSign_label].
Proof.
  assert (Hr : run zero_mass default_config demo_world = Ok demo_summary)
    by (vm_compute; reflexivity).
  pose proof (cutflow_report_ordered zero_mass default_config demo_world
                demo_summary demo_world_fair Hr) as (H1 & H2 & _).
  exact (conj demo_world_fair (conj Hr (conj H1 H2))).
Defined.

Lemma cutflow_counters_deterministic_witness :
  fair_slots demo_world /\ fair_slots reversed_world /\
  tree demo_world (inputFile default_config) =
  tree reversed_world (inputFile default_config) /\
  run_cutflow (run zero_mass default_config demo_world) =
  run_cutflow (run zero_mass default_config reversed_world).
Proof.
  assert (Ht : tree demo_world (inputFile default_config) =
               tree reversed_world (inputFile default_config))
    by reflexivity.
  pose proof (cutflow_counters_deterministic zero_mass default_config
                demo_world reversed_world demo_world_fair
                reversed_world_fair Ht) as (H1 & _).
  exact (conj demo_world_fair (conj reversed_world_fair (conj Ht H1))).
Defined.

Lemma row_limit_zero_reads_all_witness :
  maxEvents (limit_config 0) = Some 0 /\
  run zero_mass (limit_config 0) demo_world = Ok demo_summary_zero /\
  implicitMT demo_summary_zero = false /\
  entries demo_summary_zero = demo_rows /\
  entries demo_summary_zero <> first_events 0 (entries demo_summary_zero).
Proof.
  assert (Hn : maxEvents (limit_config 0) = Some 0) by reflexivity.
  assert (Hr : run zero_mass (limit_config 0) demo_world = Ok demo_summary_zero)
    by (vm_compute; reflexivity).
  pose proof (row_limit_zero_reads_all zero_mass (limit_config 0) demo_world
                demo_summary_zero Hn Hr) as (Hmt & _ & Hne).
  assert (He : entries demo_summary_zero = demo_rows) by reflexivity.
  assert (Hnil : entries demo_summary_zero <> []) by (rewrite He; discriminate).
  exact (conj Hn (conj Hr (conj Hmt (conj He (Hne Hnil))))).
Defined.

Lemma main_exit_code_witness :
  fair_slots demo_world /\ sized_world demo_world /\
  main zero_mass simple_atoll
    [mkGetopt (chr "n") "3"; mkGetopt (chr "?") ""] demo_world = Ok 1 /\
  main zero_mass simple_atoll [mkGetopt (chr "n") "3"] demo_world = Ok 0.
Proof.
  pose proof (main_exit_code zero_mass simple_atoll
                [mkGetopt (chr "n") "3"; mkGetopt (chr "?") ""] demo_world
                demo_world_fair demo_world_sized) as (_ & (_ & H1) & _).
  pose proof (main_exit_code zero_mass simple_atoll
                [mkGetopt (chr "n") "3"] demo_world
                demo_world_fair demo_world_sized) as (_ & _ & (_ & H0)).
  refine (conj demo_world_fair (conj demo_world_sized (conj (H1 _) (H0 _)))).
  - left. exists [mkGetopt (chr "n") "3"], (mkGetopt (chr "?") ""), [].
    repeat split.
  - right. exists (limit_config 3), demo_summary_three.
    split; vm_compute; reflexivity.
Defined.

(** * Further properties of the chain *)

(** ** Masked collections *)

Lemma mask_length_count {A : Type} (v : list A) mask r :
  RVec.mask v mask = Ok r ->
  List.length v = List.length mask /\
  Z.of_nat (List.length r) = true_count mask.
Proof.
  unfold RVec.mask.
  destruct (Nat.eqb (List.length v) (List.length mask)) eqn:E; [|discriminate].
  apply Nat.eqb_eq in E. intros H. injection H as <-.
  split; [exact E|].
  rewrite length_map. unfold true_count. f_equal.
  revert mask E.
  induction v as [|x v IH]; intros [|c cs] E;
    cbn [combine filter snd List.length] in *; try discriminate;
    try reflexivity.
  injection E as E.
  destruct (RVec.truthy c); cbn [List.length]; rewrite (IH cs E); reflexivity.
Qed.

Lemma nGoodMuon_inv e n :
  well_sized e -> nGoodMuon e = Ok n ->
  exists mask, goodMuon_mask e = Ok mask /\ n = true_count mask /\
               List.length mask = List.length (Muon_pt e) /\
               aligned_muons e.
Proof.
  unfold nGoodMuon. intros Hsz H.
  destruct (goodMuon_mask e) as [mask| |] eqn:Hm; try discriminate.
  cbn [bind] in H. injection H as <-.
  pose proof (goodMuon_mask_inv _ _ Hm) as (_ & Hmask & Hlen).
  exists mask. split; [reflexivity|]. split; [|split; [exact Hlen|]].
  - apply nGoodMuon_fn_count; [assumption|]. rewrite Hlen. exact Hsz.
  - eapply goodMuon_mask_aligned. exact Hm.
Qed.

(** X1. Once [nGoodMuon] is computed for a row, it lies between zero and
    the number of muons, the masked momenta and pseudorapidities are
    computed without an exception, and every masked collection that is
    computed has exactly [nGoodMuon] elements. *)
Theorem masked_collections_have_nGoodMuon (e : Event) (n : Z) :
  well_sized e ->
  nGoodMuon e = Ok n ->
  0 <= n <= Z.of_nat (List.length (Muon_pt e)) /\
  (exists pt eta,
     goodMuon_pt e = Ok pt /\ goodMuon_eta e = Ok eta /\
     Z.of_nat (List.length pt) = n /\ Z.of_nat (List.length eta) = n) /\
  (forall v, goodMuon_phi e = Ok v -> Z.of_nat (List.length v) = n) /\
  (forall v, goodMuon_mass e = Ok v -> Z.of_nat (List.length v) = n) /\
  (forall v, goodMuon_charge e = Ok v -> Z.of_nat (List.length v) = n).
Proof.
  intros Hsz Hn.
  destruct (nGoodMuon_inv e n Hsz Hn) as (mask & Hm & -> & Hlen & (He & _)).
  split.
  { pose proof (true_count_bounds mask) as B. rewrite Hlen in B. exact B. }
  set (z := S754_zero false).
  split.
  { exists (map (fun i => nth i (Muon_pt e) z) (true_positions mask)),
           (map (fun i => nth i (Muon_eta e) z) (true_positions mask)).
    unfold goodMuon_pt, goodMuon_eta. rewrite Hm. cbn [bind].
    rewrite (mask_same_size z (Muon_pt e)) by lia.
    rewrite (mask_same_size z (Muon_eta e)) by lia.
    rewrite !length_map, true_positions_count. auto. }
  repeat split; intros v Hv.
  - unfold goodMuon_phi in Hv. rewrite Hm in Hv. cbn [bind] in Hv.
    apply mask_length_count in Hv. tauto.
  - unfold goodMuon_mass in Hv. rewrite Hm in Hv. cbn [bind] in Hv.
    apply mask_length_count in Hv. tauto.
  - unfold goodMuon_charge in Hv. rewrite Hm in Hv. cbn [bind] in Hv.
    apply mask_length_count in Hv. tauto.
Qed.

(** X2. Indexing a branch by the mask keeps the entries at the true
    positions of the mask, in increasing position, whatever their
    number: the masked charges are a subsequence of the charge branch in
    branch order, and so are the masked momenta. *)
Theorem masking_keeps_branch_order (e : Event) (mask : list Z)
    (charge : list Z) :
  goodMuon_mask e = Ok mask ->
  goodMuon_charge e = Ok charge ->
  StronglySorted Nat.lt (true_positions mask) /\
  (forall i, In i (true_positions mask) <->
             (i < List.length (Muon_pt e))%nat /\ nth i mask 0 = 1) /\
  charge = map (fun i => nth i (Muon_charge e) 0) (true_positions mask) /\
  (forall d, goodMuon_pt e =
             Ok (map (fun i => nth i (Muon_pt e) d) (true_positions mask))).
Proof.
  intros Hm Hc.
  pose proof (goodMuon_mask_inv _ _ Hm) as (_ & Hmask & Hlen).
  split; [apply true_positions_sorted|]. split; [|split].
  - intros i. rewrite true_positions_In, Hlen.
    split; intros [Hlt Ht]; (split; [exact Hlt|]).
    + unfold is_mask in Hmask. rewrite Forall_forall in Hmask.
      assert (Hin : In (nth i mask 0) mask) by (apply nth_In; lia).
      destruct (Hmask _ Hin) as [Hz|Ho]; [|exact Ho].
      rewrite Hz in Ht. discriminate.
    + rewrite Ht. reflexivity.
  - unfold goodMuon_charge in Hc. rewrite Hm in Hc. cbn [bind] in Hc.
    apply (mask_inv 0) in Hc. tauto.
  - intros d. unfold goodMuon_pt. rewrite Hm. cbn [bind].
    apply mask_same_size. lia.
Qed.

(** X3. A muon counted by the mask has a momentum, a pseudorapidity and
    an isolation that are not NaN, a pseudorapidity that is not
    infinite, a momentum that is not minus infinity and an isolation
    that is not plus infinity. *)
Theorem good_muons_are_not_nan (e : Event) (mask : list Z) (i : nat)
    (pt eta iso : Float_t) :
  goodMuon_mask e = Ok mask ->
  nth_error (Muon_pt e) i = Some pt ->
  nth_error (Muon_eta e) i = Some eta ->
  nth_error (Muon_pfRelIso04_all e) i = Some iso ->
  nth i mask 0 = 1 ->
  pt <> S754_nan /\ eta <> S754_nan /\ iso <> S754_nan /\
  (forall s, eta <> S754_infinity s) /\
  pt <> S754_infinity true /\ iso <> S754_infinity false.
Proof.
  intros Hm Hpt Heta Hiso H1.
  pose proof (goodMuon_mask_inv _ _ Hm) as (-> & _ & _).
  pose proof (goodMuon_mask_aligned _ _ Hm) as (He & Hi & Hs).
  assert (Hlt : (i < List.length (Muon_pt e))%nat).
  { apply nth_error_Some. rewrite Hpt. discriminate. }
  rewrite (elementwise_good_nth _ _ _ _ i pt eta false iso) in H1
    by assumption.
  rewrite (nth_error_nth _ _ pt Hpt), (nth_error_nth _ _ eta Heta),
    (nth_error_nth _ _ iso Hiso) in H1.
  destruct (good_muon pt eta (nth i (Muon_tightId e) false) iso) eqn:G;
    [|discriminate].
  unfold good_muon in G. rewrite !andb_true_iff in G.
  destruct G as [[[Gp Ge] _] Gi].
  split; [intros E; subst; discriminate Gp|].
  split; [intros E; subst; discriminate Ge|].
  split; [intros E; subst; discriminate Gi|].
  split; [intros s E; subst; destruct s; discriminate Ge|].
  split; intros E; subst; [discriminate Gp | discriminate Gi].
Qed.

Section ChainProperties.

Variable pair_mass : PtEtaPhiM -> PtEtaPhiM -> Float_t.

(** ** Selected rows *)

Lemma passed_oppSign_inv e :
  passed_oppSign e = true ->
  passTrigger e = true /\ twoMuons e = Ok true /\ oppSign e = Ok true.
Proof.
  unfold passed_oppSign, passed_twoMuons, passed_trigger, holds.
  rewrite !andb_true_iff. intros [[Ht H2] H3].
  destruct (twoMuons e) as [[|]| |]; try discriminate.
  destruct (oppSign e) as [[|]| |]; try discriminate.
  auto.
Qed.

(** X4. A selected row fills the histograms from the two good muons at
    their positions [i < j] in the branches: the first momentum is the
    one at [i], the second the one at [j], and the mass is computed from
    momentum, pseudorapidity, azimuth and mass taken at [i] for the first
    vector and at [j] for the second. *)
Theorem selected_row_fills (e : Event) (f : Fill) :
  well_sized e ->
  eval_row pair_mass e = Ok (Selected f) ->
  exists mask i j,
    goodMuon_mask e = Ok mask /\ true_positions mask = [i; j] /\
    (i < j)%nat /\ (j < List.length (Muon_pt e))%nat /\
    List.length (Muon_phi e) = List.length (Muon_pt e) /\
    List.length (Muon_mass e) = List.length (Muon_pt e) /\
    forall d,
      f = mkFill (nJet e) (nth i (Muon_pt e) d) (nth j (Muon_pt e) d)
            (pair_mass
               (mkPtEtaPhiM (nth i (Muon_pt e) d) (nth i (Muon_eta e) d)
                            (nth i (Muon_phi e) d) (nth i (Muon_mass e) d))
               (mkPtEtaPhiM (nth j (Muon_pt e) d) (nth j (Muon_eta e) d)
                            (nth j (Muon_phi e) d) (nth j (Muon_mass e) d))).
Proof.
  intros Hsz Hrow. apply eval_row_outcome in Hrow as [Hpass Hfill].
  apply passed_oppSign_inv in Hpass as (_ & Htwo & _).
  destruct (twoMuons_inv e Hsz Htwo)
    as (mask & i & j & Hm & _ & Hlen & _ & Hp).
  pose proof (goodMuon_mask_aligned _ _ Hm) as (He & _ & _).
  pose proof (true_positions_pair _ _ _ Hp) as (Hij & Hj & _).
  exists mask, i, j.
  unfold fill_row, muon1_pt, muon2_pt, dimuon_mass in Hfill.
  unfold goodMuon_pt, goodMuon_eta, goodMuon_phi, goodMuon_mass in Hfill.
  rewrite Hm in Hfill. cbn [bind] in Hfill.
  set (z := S754_zero false) in *.
  rewrite (mask_same_size z (Muon_pt e)) in Hfill by lia.
  rewrite (mask_same_size z (Muon_eta e)) in Hfill by lia.
  rewrite Hp in Hfill. cbn [map bind RVec.at_ nth_error] in Hfill.
  destruct (RVec.mask (Muon_phi e) mask) as [ph| |] eqn:Hph;
    cbn [bind] in Hfill; try discriminate.
  destruct (RVec.mask (Muon_mass e) mask) as [ms| |] eqn:Hms;
    cbn [bind] in Hfill; try discriminate.
  destruct (masked_pair z _ _ _ _ _ Hp Hph) as [Lph ->].
  destruct (masked_pair z _ _ _ _ _ Hp Hms) as [Lms ->].
  rewrite dimuon_mass_fn_pair in Hfill. cbn [bind] in Hfill.
  injection Hfill as <-.
  repeat (split; [first [assumption | lia]|]).
  intros d.
  rewrite !(nth_indep _ z d) by lia. reflexivity.
Qed.

(** ** Rows that complete and rows that throw *)

Lemma eval_row_total (e : Event) :
  fully_aligned e -> well_sized e ->
  exists o, eval_row pair_mass e = Ok o.
Proof.
  intros ((He & Hi & Hs) & Hphi & Hmass & Hch) Hsz.
  pose proof (goodMuon_mask_fn_aligned _ _ _ _ He Hi Hs) as Hm.
  fold (goodMuon_mask e) in Hm.
  pose proof (goodMuon_mask_inv _ _ Hm) as (_ & _ & Hlen).
  set (mask := elementwise_good _ _ _ _) in *.
  unfold eval_row.
  destruct (passTrigger e); cbn [negb]; [|eauto].
  destruct (twoMuons e) as [[|]| |] eqn:Htwo;
    unfold twoMuons, nGoodMuon in Htwo; rewrite Hm in Htwo;
    cbn [bind] in Htwo; try discriminate; cbn [bind negb]; [|eauto].
  assert (Htwo' : twoMuons e = Ok true).
  { unfold twoMuons, nGoodMuon. rewrite Hm. exact Htwo. }
  destruct (twoMuons_inv e Hsz Htwo')
    as (mask' & i & j & Hm' & _ & _ & _ & Hp).
  rewrite Hm in Hm'. injection Hm' as <-.
  set (z := S754_zero false).
  unfold oppSign, goodMuon_charge. rewrite Hm. cbn [bind].
  rewrite (mask_same_size 0 (Muon_charge e)) by lia.
  rewrite Hp. cbn [map bind]. rewrite oppSign_fn_pair. cbn [bind].
  destruct (int_mul _ _ <? 0); cbn [negb]; [|eauto].
  unfold fill_row, muon1_pt, muon2_pt, dimuon_mass.
  unfold goodMuon_pt, goodMuon_eta, goodMuon_phi, goodMuon_mass.
  rewrite Hm. cbn [bind].
  rewrite (mask_same_size z (Muon_pt e)) by lia.
  rewrite (mask_same_size z (Muon_eta e)) by lia.
  rewrite (mask_same_size z (Muon_phi e)) by lia.
  rewrite (mask_same_size z (Muon_mass e)) by lia.
  rewrite Hp. cbn [map bind RVec.at_ nth_error].
  rewrite dimuon_mass_fn_pair. cbn [bind]. eauto.
Qed.

Lemma run_is_ok config w :
  fair_slots w ->
  run_cutflow (run pair_mass config w) <> None ->
  exists s, run pair_mass config w = Ok s.
Proof.
  intros _ H. destruct (run pair_mass config w) as [s| |]; cbn in H;
    [eauto | congruence | congruence].
Qed.

(** X5. A dataset whose rows have seven muon branches of one length (and
    fit an RVec) is processed to the end: [run] returns without an
    exception for any row limit and any distribution over the slots, and
    the program exits with code 0. *)
Theorem aligned_dataset_completes (config : AnalysisConfig) (w : World)
    (df : list Event) :
  fair_slots w ->
  tree w (inputFile config) = Some df ->
  (forall e, In e df -> fully_aligned e /\ well_sized e) ->
  (exists s, run pair_mass config w = Ok s) /\
  (forall atoll rs, parseArgs atoll rs = Return config ->
                    main pair_mass atoll rs w = Ok 0).
Proof.
  intros Hfair Hdf Hrows.
  assert (Hall : forall rows, (forall e, In e rows -> In e df) ->
            forallb (fun e => is_ok (eval_row pair_mass e)) rows = true).
  { intros rows Hin. apply forallb_forall. intros e He.
    destruct (Hrows e (Hin e He)) as [Ha Hs].
    destruct (eval_row_total e Ha Hs) as [o ->]. reflexivity. }
  assert (Hok : exists s, run pair_mass config w = Ok s).
  { apply run_is_ok; [exact Hfair|].
    rewrite (run_cutflow_sequential pair_mass config w Hfair), Hdf.
    destruct (maxEvents config) as [n|]; rewrite cutflow_expected.
    - rewrite Hall; [discriminate|].
      intros e He. destruct (to_unsigned_int n =? 0); [exact He|].
      eapply firstn_incl; exact He.
    - rewrite Hall; [discriminate | auto]. }
  split; [exact Hok|].
  intros atoll rs Hparse. unfold main. rewrite Hparse.
  destruct Hok as [s ->]. reflexivity.
Qed.

(** X6. A row that fired a trigger aborts the chain with an exception
    when its momentum, pseudorapidity, identification and isolation
    branches differ in length, when it has exactly two good muons and a
    charge branch of another length, and when it passed all three filters
    and its azimuth or mass branch has another length. *)
Theorem misaligned_row_throws (e : Event) :
  well_sized e ->
  passTrigger e = true ->
  ~ aligned_muons e \/
  (twoMuons e = Ok true /\
   List.length (Muon_charge e) <> List.length (Muon_pt e)) \/
  (twoMuons e = Ok true /\ oppSign e = Ok true /\
   (List.length (Muon_phi e) <> List.length (Muon_pt e) \/
    List.length (Muon_mass e) <> List.length (Muon_pt e))) ->
  exists what, eval_row pair_mass e = Throw what.
Proof.
  intros Hsz Htrig H.
  pose proof (eval_row_defined pair_mass e Hsz) as Hdef.
  destruct (eval_row pair_mass e) as [o|what|] eqn:Hrow;
    [exfalso | eauto | congruence].
  unfold eval_row in Hrow. rewrite Htrig in Hrow. cbn [negb] in Hrow.
  destruct H as [Hmis | [[Htwo Hch] | (Htwo & Hopp & Hlen)]].
  - destruct (goodMuon_mask_misaligned e Hmis) as [what Hm].
    unfold twoMuons, nGoodMuon in Hrow. rewrite Hm in Hrow. discriminate.
  - rewrite Htwo in Hrow. cbn [bind negb] in Hrow.
    destruct (twoMuons_inv e Hsz Htwo) as (mask & i & j & Hm & _ & Hl & _).
    unfold oppSign, goodMuon_charge in Hrow. rewrite Hm in Hrow.
    cbn [bind] in Hrow. unfold RVec.mask in Hrow.
    assert (E : Nat.eqb (List.length (Muon_charge e)) (List.length mask)
                = false) by (apply Nat.eqb_neq; lia).
    rewrite E in Hrow. discriminate.
  - rewrite Htwo in Hrow. cbn [bind negb] in Hrow.
    rewrite Hopp in Hrow. cbn [bind negb] in Hrow.
    destruct (fill_row pair_mass e) as [f| |] eqn:Hf; try discriminate.
    assert (Hsel : eval_row pair_mass e = Ok (Selected f)).
    { unfold eval_row. rewrite Htrig, Htwo. cbn [bind negb].
      rewrite Hopp. cbn [bind negb]. rewrite Hf. reflexivity. }
    clear Hrow.
    unfold fill_row, muon1_pt, muon2_pt, dimuon_mass in Hf.
    destruct (twoMuons_inv e Hsz Htwo) as (mask & i & j & Hm & _ & Hl & _ & Hp).
    unfold goodMuon_pt, goodMuon_eta, goodMuon_phi, goodMuon_mass in Hf.
    rewrite Hm in Hf. cbn [bind] in Hf.
    destruct (RVec.mask (Muon_pt e) mask) as [vp| |]; cbn [bind] in Hf;
      try discriminate.
    destruct (RVec.at_ vp 0) as [p0| |]; cbn [bind] in Hf; try discriminate.
    destruct (RVec.at_ vp 1) as [p1| |]; cbn [bind] in Hf; try discriminate.
    destruct (RVec.mask (Muon_eta e) mask) as [ve| |]; cbn [bind] in Hf;
      try discriminate.
    destruct (RVec.mask (Muon_phi e) mask) as [vh| |] eqn:Hph;
      cbn [bind] in Hf; try discriminate.
    destruct (RVec.mask (Muon_mass e) mask) as [vm| |] eqn:Hms;
      cbn [bind] in Hf; try discriminate.
    apply mask_length_count in Hph as [Lph _], Hms as [Lms _].
    lia.
Qed.

(** The rows a run hands to the chain, after the row limit. *)
Lemma run_not_ok config w df e :
  fair_slots w -> sized_world w ->
  tree w (inputFile config) = Some df ->
  In e (match maxEvents config with
        | None => df
        | Some n => if to_unsigned_int n =? 0 then df
                    else firstn (Z.to_nat (to_unsigned_int n)) df
        end) ->
  is_ok (eval_row pair_mass e) = false ->
  exists what, run pair_mass config w = Throw what.
Proof.
  intros Hfair Hsized Hdf Hin Hbad.
  pose proof (run_defined pair_mass config w Hfair Hsized) as Hdef.
  pose proof (run_cutflow_sequential pair_mass config w Hfair) as Hc.
  rewrite Hdf in Hc.
  assert (Hnone : run_cutflow (run pair_mass config w) = None).
  { rewrite Hc.
    destruct (maxEvents config) as [n|]; rewrite cutflow_expected;
      match goal with
      | |- (if forallb ?f ?l then _ else _) = None =>
          destruct (forallb f l) eqn:Hall; [|reflexivity];
          rewrite forallb_forall in Hall; specialize (Hall e Hin);
          cbv beta in Hall; congruence
      end. }
  destruct (run pair_mass config w) as [s|what|];
    [discriminate Hnone | eauto | congruence].
Qed.

(** X7. One throwing row among the rows handed to the chain aborts the
    whole run, wherever it stands and however the rows are spread over
    the slots: [run] throws and the program exits with code 1.  With a
    row limit the row counts only when it is among the first rows. *)
Theorem throwing_row_aborts_run (config : AnalysisConfig) (w : World)
    (df : list Event) (e : Event) (what0 : string) :
  fair_slots w -> sized_world w ->
  tree w (inputFile config) = Some df ->
  eval_row pair_mass e = Throw what0 ->
  (maxEvents config = None /\ In e df) \/
  (exists n, maxEvents config = Some n /\ 0 < n < 2 ^ 32 /\
             In e (first_events n df)) ->
  (exists what, run pair_mass config w = Throw what) /\
  (forall atoll rs, parseArgs atoll rs = Return config ->
                    main pair_mass atoll rs w = Ok 1).
Proof.
  intros Hfair Hsized Hdf Hthrow Hin.
  assert (Hrun : exists what, run pair_mass config w = Throw what).
  { apply (run_not_ok config w df e Hfair Hsized Hdf).
    - destruct Hin as [[-> Hin] | (n & -> & Hn & Hin)]; [exact Hin|].
      unfold to_unsigned_int. rewrite Z.mod_small by lia.
      assert (E : (n =? 0) = false) by (apply Z.eqb_neq; lia).
      rewrite E. exact Hin.
    - rewrite Hthrow. reflexivity. }
  split; [exact Hrun|].
  intros atoll rs Hparse. unfold main. rewrite Hparse.
  destruct Hrun as [what ->]. reflexivity.
Qed.

(** ** Histogram entries *)

Lemma step_entries st e st' :
  step pair_mass st e = Ok st' ->
  nEvents st' - accepted (cnt_oppSign st') =
  nEvents st - accepted (cnt_oppSign st).
Proof.
  unfold step. destruct (eval_row pair_mass e) as [o| |]; try discriminate.
  cbn [bind]. intros H. injection H as <-.
  destruct o; unfold nEvents; cbn [record_row fills cnt_oppSign accept reject
                                   accepted]; try lia.
  rewrite length_app. cbn [List.length]. lia.
Qed.

Lemma event_loop_entries rows : forall st0 st,
  event_loop pair_mass rows st0 = Ok st ->
  nEvents st - accepted (cnt_oppSign st) =
  nEvents st0 - accepted (cnt_oppSign st0).
Proof.
  induction rows as [|e rest IH]; intros st0 st H; cbn [event_loop] in H.
  - injection H as <-. reflexivity.
  - destruct (step pair_mass st0 e) as [st1| |] eqn:Hs; try discriminate.
    cbn [bind] in H. rewrite (IH _ _ H). eapply step_entries. exact Hs.
Qed.

Lemma run_slots_entries parts : forall st,
  run_slots pair_mass parts = Ok st ->
  nEvents st = accepted (cnt_oppSign st).
Proof.
  induction parts as [|p rest IH]; intros st H; cbn [run_slots] in H.
  - injection H as <-. reflexivity.
  - destruct (event_loop pair_mass p init_state) as [s| |] eqn:Hs;
      try discriminate.
    cbn [bind] in H.
    destruct (run_slots pair_mass rest) as [r| |] eqn:Hr; try discriminate.
    cbn [bind] in H. injection H as <-.
    pose proof (event_loop_entries _ _ _ Hs) as E1.
    pose proof (IH r eq_refl) as E2.
    unfold nEvents in *.
    cbn [merge_states fills cnt_oppSign add_counter accepted init_state
         no_count List.length] in *.
    rewrite length_app. lia.
Qed.

Lemma run_final_state config w s :
  run pair_mass config w = Ok s ->
  (if implicitMT s then run_slots pair_mass (slots w (entries s))
   else event_loop pair_mass (entries s) init_state) = Ok (final s).
Proof.
  unfold run. intros H.
  destruct (tree w (inputFile config)) as [df|]; [|discriminate].
  cbn [bind] in H.
  destruct (maxEvents config) as [n|]; cbn [bind] in H.
  - rewrite Range_single_thread in H by apply to_unsigned_int_range.
    cbn [bind] in H.
    destruct (event_loop pair_mass _ init_state) as [st| |] eqn:E;
      try discriminate.
    cbn [bind] in H. injection H as <-. exact E.
  - destruct (run_slots pair_mass (slots w df)) as [st| |] eqn:E;
      try discriminate.
    cbn [bind] in H. injection H as <-. exact E.
Qed.

(** X8. After a completed run the mass histogram has one entry per row
    that passed the opposite-sign filter: the number printed as selected
    dimuon events is the pass count of the last line of the cutflow. *)
Theorem selected_events_match_cutflow (config : AnalysisConfig) (w : World)
    (s : RunSummary) :
  fair_slots w ->
  run pair_mass config w = Ok s ->
  nEvents (final s) = count_rows passed_oppSign (entries s) /\
  exists c, nth_error (Report (final s)) 2 = Some c /\
            cut_name c = oppSign_label /\
            cut_pass c = nEvents (final s).
Proof.
  intros Hfair Hrun.
  pose proof (run_final_report pair_mass config w s Hfair Hrun) as Hrep.
  pose proof (run_final_state config w s Hrun) as Hst.
  assert (Hn : nEvents (final s) = accepted (cnt_oppSign (final s))).
  { destruct (implicitMT s).
    - apply run_slots_entries with (parts := slots w (entries s)). exact Hst.
    - pose proof (event_loop_entries _ _ _ Hst) as E.
      unfold nEvents in *. cbn in E. lia. }
  assert (Hc : accepted (cnt_oppSign (final s)) =
               count_rows passed_oppSign (entries s)).
  { unfold Report, expected_cutflow, cut_of in Hrep.
    injection Hrep as _ _ _ _ H _. exact H. }
  split; [lia|].
  exists (cut_of oppSign_label (cnt_oppSign (final s))).
  repeat split. cbn [cut_of cut_pass]. lia.
Qed.

Lemma event_loop_fills rows : forall st0 st,
  event_loop pair_mass rows st0 = Ok st ->
  fills st = fills st0 ++ flat_map (row_fills pair_mass) rows.
Proof.
  induction rows as [|e rest IH]; intros st0 st H; cbn [event_loop] in H.
  - injection H as <-. cbn [flat_map]. now rewrite app_nil_r.
  - unfold step in H. cbn [flat_map]. unfold row_fills at 1.
    destruct (eval_row pair_mass e) as [o| |]; try discriminate.
    cbn [bind] in H. rewrite (IH _ _ H), app_assoc. f_equal.
    destruct o; cbn [record_row fills]; rewrite ?app_nil_r; reflexivity.
Qed.

Lemma run_fills config w s :
  fair_slots w ->
  run pair_mass config w = Ok s ->
  Permutation (fills (final s))
              (flat_map (row_fills pair_mass) (entries s)) /\
  (implicitMT s = false ->
   fills (final s) = flat_map (row_fills pair_mass) (entries s)).
Proof.
  intros Hfair Hrun. pose proof (run_final_state config w s Hrun) as Hst.
  destruct (implicitMT s).
  - split; [|discriminate].
    rewrite run_slots_concat in Hst.
    rewrite (event_loop_fills _ _ _ Hst). cbn [init_state fills app].
    apply Permutation_flat_map. apply Hfair.
  - pose proof (event_loop_fills _ _ _ Hst) as E.
    cbn [init_state fills app] in E. rewrite E.
    split; [apply Permutation_refl | reflexivity].
Qed.

(** X9. Two completed runs on the same input fill the histograms with
    the same values, up to the order of filling, however the entries are
    spread over the slots; with a row limit, where the loop is
    sequential, the fills agree in order as well. *)
Theorem histogram_fills_independent_of_slots (config : AnalysisConfig)
    (w1 w2 : World) (s1 s2 : RunSummary) :
  fair_slots w1 -> fair_slots w2 ->
  tree w1 (inputFile config) = tree w2 (inputFile config) ->
  run pair_mass config w1 = Ok s1 ->
  run pair_mass config w2 = Ok s2 ->
  entries s1 = entries s2 /\
  Permutation (fills (final s1)) (fills (final s2)) /\
  nEvents (final s1) = nEvents (final s2) /\
  (maxEvents config <> None -> fills (final s1) = fills (final s2)).
Proof.
  intros H1 H2 Ht R1 R2.
  destruct (run_entries pair_mass config w1 s1 R1) as (df1 & D1 & E1).
  destruct (run_entries pair_mass config w2 s2 R2) as (df2 & D2 & E2).
  rewrite Ht, D2 in D1. injection D1 as ->.
  destruct (run_fills config w1 s1 H1 R1) as [P1 Q1].
  destruct (run_fills config w2 s2 H2 R2) as [P2 Q2].
  assert (He : entries s1 = entries s2).
  { destruct (maxEvents config); destruct E1 as [_ ->], E2 as [_ ->];
      reflexivity. }
  assert (Hp : Permutation (fills (final s1)) (fills (final s2))).
  { rewrite P1, He. symmetry. exact P2. }
  split; [exact He|]. split; [exact Hp|]. split.
  - unfold nEvents. now rewrite (Permutation_length Hp).
  - intros Hlim. destruct (maxEvents config) as [n|]; [|congruence].
    destruct E1 as [M1 _], E2 as [M2 _].
    rewrite (Q1 M1), (Q2 M2), He. reflexivity.
Qed.

(** ** Row limit *)

(** X10. With a row limit [n] between 1 and [2 ^ 32 - 1] a completed run
    is single-threaded and the chain sees the first [n] rows of the
    dataset, all of them when the dataset is shorter: the first line of
    the cutflow counts [min n (number of rows)] rows.  Without a limit
    implicit multi-threading is on and the chain sees every row. *)
Theorem row_limit_counts_input_rows (config : AnalysisConfig) (w : World)
    (s : RunSummary) :
  fair_slots w ->
  run pair_mass config w = Ok s ->
  exists df,
    tree w (inputFile config) = Some df /\
    (forall n, maxEvents config = Some n -> 0 < n < 2 ^ 32 ->
       implicitMT s = false /\ entries s = first_events n df /\
       (Z.of_nat (List.length df) <= n -> entries s = df) /\
       option_map cut_all (nth_error (Report (final s)) 0) =
       Some (Z.min n (Z.of_nat (List.length df)))) /\
    (maxEvents config = None ->
       implicitMT s = true /\ entries s = df /\
       option_map cut_all (nth_error (Report (final s)) 0) =
       Some (Z.of_nat (List.length df))).
Proof.
  intros Hfair Hrun.
  pose proof (run_final_report pair_mass config w s Hfair Hrun) as Hrep.
  destruct (run_entries pair_mass config w s Hrun) as (df & Hdf & H).
  exists df. split; [exact Hdf|]. rewrite Hrep. split.
  - intros n Hn Hr. rewrite Hn in H. destruct H as [Hmt He].
    unfold to_unsigned_int in He. rewrite Z.mod_small in He by lia.
    assert (E : (n =? 0) = false) by (apply Z.eqb_neq; lia).
    rewrite E in He. fold (first_events n df) in He.
    split; [exact Hmt|]. split; [exact He|]. split.
    + intros Hlen. rewrite He. unfold first_events.
      apply firstn_all2. lia.
    + cbn [expected_cutflow nth_error option_map cut_all]. f_equal.
      rewrite He. unfold first_events. rewrite length_firstn. lia.
  - intros Hn. rewrite Hn in H. destruct H as [Hmt ->].
    split; [exact Hmt|]. split; reflexivity.
Qed.

End ChainProperties.

(** ** The command line *)

Section CommandLine.

Variable pair_mass : PtEtaPhiM -> PtEtaPhiM -> Float_t.
Variable atoll : string -> Z.

Lemma parse_loop_fields rs : forall c,
  forallb stored_option rs = true ->
  parse_loop atoll rs c =
  Return (mkConfig
            (or_default (inputFile c) (last_optarg (chr "i") rs))
            (or_default (outputFile c) (last_optarg (chr "o") rs))
            (or_default (outputDir c) (last_optarg (chr "d") rs))
            (match last_optarg (chr "n") rs with
             | Some a => Some (atoll a)
             | None => maxEvents c
             end)).
Proof.
  induction rs as [|r rest IH]; intros c Hall.
  - destruct c. reflexivity.
  - cbn [forallb] in Hall. apply andb_true_iff in Hall as [Hr Hrest].
    cbn [parse_loop last_optarg].
    destruct (opt r =? chr "i") eqn:Ei.
    { apply Z.eqb_eq in Ei. rewrite (IH _ Hrest), ?Ei.
      change (chr "i" =? chr "o") with false.
      change (chr "i" =? chr "d") with false.
      change (chr "i" =? chr "n") with false.
      change (chr "i" =? chr "i") with true.
      destruct (last_optarg (chr "i") rest), (last_optarg (chr "o") rest),
        (last_optarg (chr "d") rest), (last_optarg (chr "n") rest);
        reflexivity. }
    destruct (opt r =? chr "o") eqn:Eo.
    { apply Z.eqb_eq in Eo. rewrite (IH _ Hrest), ?Eo.
      change (chr "o" =? chr "d") with false.
      change (chr "o" =? chr "n") with false.
      change (chr "o" =? chr "i") with false.
      change (chr "o" =? chr "o") with true.
      destruct (last_optarg (chr "i") rest), (last_optarg (chr "o") rest),
        (last_optarg (chr "d") rest), (last_optarg (chr "n") rest);
        reflexivity. }
    destruct (opt r =? chr "d") eqn:Ed.
    { apply Z.eqb_eq in Ed. rewrite (IH _ Hrest), ?Ed.
      change (chr "d" =? chr "o") with false.
      change (chr "d" =? chr "n") with false.
      change (chr "d" =? chr "i") with false.
      change (chr "d" =? chr "d") with true.
      destruct (last_optarg (chr "i") rest), (last_optarg (chr "o") rest),
        (last_optarg (chr "d") rest), (last_optarg (chr "n") rest);
        reflexivity. }
    destruct (opt r =? chr "n") eqn:En.
    { apply Z.eqb_eq in En. rewrite (IH _ Hrest), ?En.
      change (chr "n" =? chr "o") with false.
      change (chr "n" =? chr "d") with false.
      change (chr "n" =? chr "i") with false.
      change (chr "n" =? chr "n") with true.
      destruct (last_optarg (chr "i") rest), (last_optarg (chr "o") rest),
        (last_optarg (chr "d") rest), (last_optarg (chr "n") rest);
        reflexivity. }
    unfold stored_option in Hr. rewrite Ei, Eo, Ed, En in Hr. discriminate.
Qed.

(** X11. For a command line made of the four options that take an
    argument, [parseArgs] returns the configuration in which every field
    holds the argument of the last occurrence of its option, and its
    default when the option is absent: [data.root], [output.root], [.]
    and no row limit. *)
Theorem parseArgs_last_occurrence_wins (rs : list GetoptReturn) :
  forallb stored_option rs = true ->
  parseArgs atoll rs =
  Return (mkConfig
            (or_default "data.root" (last_optarg (chr "i") rs))
            (or_default "output.root" (last_optarg (chr "o") rs))
            (or_default "." (last_optarg (chr "d") rs))
            (option_map atoll (last_optarg (chr "n") rs))).
Proof.
  intros Hall. unfold parseArgs. rewrite (parse_loop_fields rs _ Hall).
  cbn [default_config inputFile outputFile outputDir maxEvents].
  destruct (last_optarg (chr "n") rs); reflexivity.
Qed.

(** X12. The first option that is not one of the four stored options
    ends [parseArgs]: the process exits with 0 when it is the help
    option and with 1 otherwise, and nothing that follows it on the
    command line is read. *)
Theorem parseArgs_stops_at_first_exit (pre post post' : list GetoptReturn)
    (r : GetoptReturn) :
  forallb stored_option pre = true ->
  stored_option r = false ->
  parseArgs atoll (pre ++ r :: post) =
    Exit (if help_option r then 0 else 1) /\
  parseArgs atoll (pre ++ r :: post) = parseArgs atoll (pre ++ r :: post') /\
  (forall w, main pair_mass atoll (pre ++ r :: post) w =
             Ok (if help_option r then 0 else 1)).
Proof.
  intros Hpre Hr. unfold main, parseArgs.
  rewrite !(parse_loop_stop atoll pre r _ default_config Hpre Hr).
  repeat split.
Qed.

(** X13. When the input file cannot be opened the program exits with
    code 1; the file is the argument of the last [-i] option, and
    [data.root] when the command line has none. *)
Theorem missing_input_exits_1 (rs : list GetoptReturn) (w : World) :
  forallb stored_option rs = true ->
  tree w (or_default "data.root" (last_optarg (chr "i") rs)) = None ->
  exists config what,
    parseArgs atoll rs = Return config /\
    inputFile config = or_default "data.root" (last_optarg (chr "i") rs) /\
    run pair_mass config w = Throw what /\
    main pair_mass atoll rs w = Ok 1.
Proof.
  intros Hall Hnone. unfold main, parseArgs.
  rewrite (parse_loop_fields rs _ Hall).
  cbn [default_config inputFile outputFile outputDir maxEvents].
  eexists. eexists. split; [reflexivity|]. split; [reflexivity|].
  unfold run. cbn [inputFile]. rewrite Hnone. cbn [bind].
  split; reflexivity.
Qed.

End CommandLine.

(** ** Worked rows for the further properties *)

Lemma two_slots_fair (w : World) : slots w = two_slots -> fair_slots w.
Proof.
  intros E rows. rewrite E. unfold two_slots. cbn [concat].
  rewrite app_nil_r, firstn_skipn. apply Permutation_refl.
Qed.

Lemma demo_rows_aligned e :
  In e demo_rows -> fully_aligned e /\ well_sized e.
Proof.
  intros H. unfold demo_rows in H. cbn [In] in H.
  repeat (destruct H as [<- | H];
          [split; [repeat split | vm_compute; discriminate]|]).
  destruct H.
Qed.

Lemma broken_world_sized : sized_world broken_world.
Proof.
  intros path rows e Hrows He. unfold broken_world in Hrows.
  cbn [tree] in Hrows. injection Hrows as <-. cbn [In] in He.
  repeat (destruct He as [<- | He]; [vm_compute; discriminate|]).
  destruct He.
Qed.

Lemma masked_collections_have_nGoodMuon_witness :
  well_sized scenario3 /\ nGoodMuon scenario3 = Ok 3 /\
  0 <= 3 <= Z.of_nat (List.length (Muon_pt scenario3)) /\
  (forall v, goodMuon_charge scenario3 = Ok v ->
             Z.of_nat (List.length v) = 3).
Proof.
  assert (Hs : well_sized scenario3) by (vm_compute; discriminate).
  assert (Hn : nGoodMuon scenario3 = Ok 3) by (vm_compute; reflexivity).
  destruct (masked_collections_have_nGoodMuon scenario3 3 Hs Hn)
    as (B & _ & _ & _ & C).
  exact (conj Hs (conj Hn (conj B C))).
Defined.

Lemma masking_keeps_branch_order_witness :
  goodMuon_mask soft_middle = Ok [1; 0; 1] /\
  goodMuon_charge soft_middle = Ok [1; -1] /\
  StronglySorted Nat.lt (true_positions [1; 0; 1]) /\
  [1; -1] = map (fun i => nth i (Muon_charge soft_middle) 0)
              (true_positions [1; 0; 1]).
Proof.
  assert (Hm : goodMuon_mask soft_middle = Ok [1; 0; 1])
    by (vm_compute; reflexivity).
  assert (Hc : goodMuon_charge soft_middle = Ok [1; -1])
    by (vm_compute; reflexivity).
  destruct (masking_keeps_branch_order soft_middle [1; 0; 1] [1; -1] Hm Hc)
    as (S & _ & C & _).
  exact (conj Hm (conj Hc (conj S C))).
Defined.

Lemma good_muons_are_not_nan_witness :
  goodMuon_mask scenario1 = Ok [1; 1] /\
  nth_error (Muon_pt scenario1) 0 = Some (float_of_Z 45) /\
  nth_error (Muon_eta scenario1) 0 = Some (float_ratio 1 10) /\
  nth_error (Muon_pfRelIso04_all scenario1) 0 = Some (float_ratio 1 100) /\
  nth 0 [1; 1] 0 = 1 /\
  float_of_Z 45 <> S754_nan.
Proof.
  assert (Hm : goodMuon_mask scenario1 = Ok [1; 1])
    by (vm_compute; reflexivity).
  assert (Hp : nth_error (Muon_pt scenario1) 0 = Some (float_of_Z 45))
    by reflexivity.
  assert (He : nth_error (Muon_eta scenario1) 0 = Some (float_ratio 1 10))
    by reflexivity.
  assert (Hi : nth_error (Muon_pfRelIso04_all scenario1) 0 =
               Some (float_ratio 1 100)) by reflexivity.
  assert (H1 : nth 0 [1; 1] 0 = 1) by reflexivity.
  destruct (good_muons_are_not_nan scenario1 [1; 1] 0%nat _ _ _
              Hm Hp He Hi H1) as (N & _).
  exact (conj Hm (conj Hp (conj He (conj Hi (conj H1 N))))).
Defined.

Lemma selected_row_fills_witness :
  well_sized scenario1 /\
  eval_row zero_mass scenario1 =
    Ok (Selected (mkFill 2 (float_of_Z 45) (float_of_Z 40)
                    (S754_zero false))) /\
  exists mask i j,
    goodMuon_mask scenario1 = Ok mask /\ true_positions mask = [i; j] /\
    (i < j)%nat.
Proof.
  assert (Hs : well_sized scenario1) by (vm_compute; discriminate).
  assert (Hr : eval_row zero_mass scenario1 =
               Ok (Selected (mkFill 2 (float_of_Z 45) (float_of_Z 40)
                               (S754_zero false))))
    by (vm_compute; reflexivity).
  destruct (selected_row_fills zero_mass scenario1 _ Hs Hr)
    as (mask & i & j & Hm & Hp & Hij & _).
  exact (conj Hs (conj Hr
           (ex_intro _ mask (ex_intro _ i (ex_intro _ j
              (conj Hm (conj Hp Hij))))))).
Defined.

Lemma aligned_dataset_completes_witness :
  fair_slots demo_world /\
  tree demo_world (inputFile default_config) = Some demo_rows /\
  (forall e, In e demo_rows -> fully_aligned e /\ well_sized e) /\
  (exists s, run zero_mass default_config demo_world = Ok s).
Proof.
  assert (Ht : tree demo_world (inputFile default_config) = Some demo_rows)
    by reflexivity.
  destruct (aligned_dataset_completes zero_mass default_config demo_world
              demo_rows demo_world_fair Ht demo_rows_aligned) as [R _].
  exact (conj demo_world_fair (conj Ht (conj demo_rows_aligned R))).
Defined.

Lemma misaligned_row_throws_witness :
  well_sized short_charge /\ passTrigger short_charge = true /\
  (twoMuons short_charge = Ok true /\
   List.length (Muon_charge short_charge) <>
   List.length (Muon_pt short_charge)) /\
  exists what, eval_row zero_mass short_charge = Throw what.
Proof.
  assert (Hs : well_sized short_charge) by (vm_compute; discriminate).
  assert (Ht : passTrigger short_charge = true) by reflexivity.
  assert (Hc : twoMuons short_charge = Ok true /\
               List.length (Muon_charge short_charge) <>
               List.length (Muon_pt short_charge))
    by (split; [vm_compute; reflexivity | vm_compute; discriminate]).
  exact (conj Hs (conj Ht (conj Hc
           (misaligned_row_throws zero_mass short_charge Hs Ht
              (or_intror (or_introl Hc)))))).
Defined.

Lemma throwing_row_aborts_run_witness :
  fair_slots broken_world /\ sized_world broken_world /\
  tree broken_world (inputFile default_config) =
    Some [scenario1; short_charge] /\
  (exists what, run zero_mass default_config broken_world = Throw what) /\
  main zero_mass simple_atoll [] broken_world = Ok 1.
Proof.
  assert (Hf : fair_slots broken_world) by (apply two_slots_fair; reflexivity).
  assert (Ht : tree broken_world (inputFile default_config) =
               Some [scenario1; short_charge]) by reflexivity.
  assert (He : eval_row zero_mass short_charge =
               Throw "Cannot index RVec with condition vector of different size")
    by (vm_compute; reflexivity).
  assert (Hin : In short_charge [scenario1; short_charge])
    by (right; left; reflexivity).
  destruct (throwing_row_aborts_run zero_mass default_config broken_world
              _ short_charge _ Hf broken_world_sized Ht He
              (or_introl (conj eq_refl Hin))) as [R M].
  exact (conj Hf (conj broken_world_sized (conj Ht (conj R
           (M simple_atoll [] eq_refl))))).
Defined.

Lemma selected_events_match_cutflow_witness :
  fair_slots demo_world /\
  run zero_mass default_config demo_world = Ok demo_summary /\
  nEvents (final demo_summary) =
    count_rows passed_oppSign (entries demo_summary).
Proof.
  assert (Hr : run zero_mass default_config demo_world = Ok demo_summary)
    by (vm_compute; reflexivity).
  destruct (selected_events_match_cutflow zero_mass default_config demo_world
              demo_summary demo_world_fair Hr) as [N _].
  exact (conj demo_world_fair (conj Hr N)).
Defined.

Lemma histogram_fills_independent_of_slots_witness :
  fair_slots demo_world /\ fair_slots reversed_world /\
  tree demo_world (inputFile default_config) =
    tree reversed_world (inputFile default_config) /\
  run zero_mass default_config demo_world = Ok demo_summary /\
  run zero_mass default_config reversed_world = Ok demo_summary_reversed /\
  Permutation (fills (final demo_summary))
              (fills (final demo_summary_reversed)).
Proof.
  assert (Ht : tree demo_world (inputFile default_config) =
               tree reversed_world (inputFile default_config))
    by reflexivity.
  assert (R1 : run zero_mass default_config demo_world = Ok demo_summary)
    by (vm_compute; reflexivity).
  assert (R2 : run zero_mass default_config reversed_world =
               Ok demo_summary_reversed) by (vm_compute; reflexivity).
  destruct (histogram_fills_independent_of_slots zero_mass default_config
              demo_world reversed_world _ _ demo_world_fair
              reversed_world_fair Ht R1 R2) as (_ & P & _).
  exact (conj demo_world_fair (conj reversed_world_fair
           (conj Ht (conj R1 (conj R2 P))))).
Defined.

Lemma row_limit_counts_input_rows_witness :
  fair_slots demo_world /\
  run zero_mass (limit_config 3) demo_world = Ok demo_summary_three /\
  exists df,
    tree demo_world (inputFile (limit_config 3)) = Some df /\
    entries demo_summary_three = first_events 3 df.
Proof.
  assert (Hr : run zero_mass (limit_config 3) demo_world =
               Ok demo_summary_three) by (vm_compute; reflexivity).
  destruct (row_limit_counts_input_rows zero_mass (limit_config 3)
              demo_world demo_summary_three demo_world_fair Hr)
    as (df & Hdf & Hlim & _).
  destruct (Hlim 3 eq_refl (conj eq_refl eq_refl)) as (_ & He & _).
  exact (conj demo_world_fair (conj Hr
           (ex_intro _ df (conj Hdf He)))).
Defined.

Lemma parseArgs_last_occurrence_wins_witness :
  forallb stored_option demo_command_line = true /\
  parseArgs simple_atoll demo_command_line =
    Return (mkConfig "b.root" "output.root" "." (Some 3)).
Proof.
  assert (Ha : forallb stored_option demo_command_line = true)
    by reflexivity.
  exact (conj Ha (parseArgs_last_occurrence_wins simple_atoll
                    demo_command_line Ha)).
Defined.

Lemma parseArgs_stops_at_first_exit_witness :
  forallb stored_option [mkGetopt (chr "n") "3"] = true /\
  stored_option (mkGetopt (chr "h") "") = false /\
  parseArgs simple_atoll
    ([mkGetopt (chr "n") "3"] ++ mkGetopt (chr "h") "" ::
     [mkGetopt (chr "?") ""]) = Exit 0.
Proof.
  assert (Ha : forallb stored_option [mkGetopt (chr "n") "3"] = true)
    by reflexivity.
  assert (Hr : stored_option (mkGetopt (chr "h") "") = false)
    by reflexivity.
  destruct (parseArgs_stops_at_first_exit zero_mass simple_atoll
              [mkGetopt (chr "n") "3"] [mkGetopt (chr "?") ""] []
              (mkGetopt (chr "h") "") Ha Hr) as (E & _).
  exact (conj Ha (conj Hr E)).
Defined.

Lemma missing_input_exits_1_witness :
  forallb stored_option demo_command_line = true /\
  tree empty_world
    (or_default "data.root" (last_optarg (chr "i") demo_command_line))
    = None /\
  main zero_mass simple_atoll demo_command_line empty_world = Ok 1.
Proof.
  assert (Ha : forallb stored_option demo_command_line = true)
    by reflexivity.
  assert (Hn : tree empty_world
                 (or_default "data.root"
                    (last_optarg (chr "i") demo_command_line)) = None)
    by reflexivity.
  destruct (missing_input_exits_1 zero_mass simple_atoll demo_command_line
              empty_world Ha Hn) as (c & what & _ & _ & _ & M).
  exact (conj Ha (conj Hn M)).
Defined.

(** ** Image files *)

Lemma append_cancel_l (s a b : string) :
  String.append s a = String.append s b -> a = b.
Proof.
  induction s as [|c s IH]; cbn [String.append]; intros H; [exact H|].
  injection H as H. apply IH. exact H.
Qed.

Lemma append_prefix (s a : string) : String.prefix s (String.append s a) = true.
Proof.
  induction s as [|c s IH]; cbn [String.append String.prefix].
  - destruct a; reflexivity.
  - destruct (Ascii.ascii_dec c c) as [_|N]; [exact IH | congruence].
Qed.

(** X14. The four images are written to four different paths, all of
    them under the output directory, whatever that directory is: no
    plot overwrites another. *)
Theorem plots_have_distinct_paths (config : AnalysisConfig) :
  NoDup (map (outPath config) plot_names) /\
  (forall p, In p (map (outPath config) plot_names) ->
             String.prefix (outputDir config) p = true).
Proof.
  assert (Hinj : forall a b, In a plot_names -> In b plot_names ->
                             outPath config a = outPath config b -> a = b).
  { intros a b Ha Hb H. unfold outPath in H.
    apply append_cancel_l in H. apply append_cancel_l in H.
    unfold plot_names in Ha, Hb. cbn [In] in Ha, Hb.
    repeat (destruct Ha as [<- | Ha]);
      repeat (destruct Hb as [<- | Hb]);
      try reflexivity; try discriminate H; try contradiction. }
  split.
  - unfold plot_names. cbn [map].
    repeat constructor; cbn [In]; intros H;
      repeat (destruct H as [H | H];
              [apply Hinj in H; [discriminate H | | ];
               unfold plot_names; cbn [In]; tauto|]);
      try contradiction.
  - intros p Hp. apply in_map_iff in Hp as (n & <- & _).
    unfold outPath. apply append_prefix.
Qed.

(** * The stored invariant mass *)

(** ** Rounding keeps the sign *)

Lemma iter_pos_invariant {A : Type} (P : A -> Prop) (f : A -> A) :
  (forall x, P x -> P (f x)) ->
  forall p x, P x -> P (iter_pos f p x).
Proof.
  intros Hf. induction p as [p IH|p IH|]; intros x Hx; cbn [iter_pos].
  - apply IH, IH, Hf, Hx.
  - apply IH, IH, Hx.
  - apply Hf, Hx.
Qed.

Lemma shr_1_nonneg mrs : 0 <= shr_m mrs -> 0 <= shr_m (shr_1 mrs).
Proof.
  destruct mrs as [m r t]. cbn [shr_m]. intros H.
  destruct m as [|[p|p|]|p]; cbn [shr_1 shr_m]; lia.
Qed.

Lemma shr_nonneg mrs e n :
  0 <= shr_m mrs -> 0 <= shr_m (fst (shr mrs e n)).
Proof.
  intros H. unfold shr. destruct n as [|p|p]; cbn [fst]; try exact H.
  apply (iter_pos_invariant (fun x => 0 <= shr_m x)); [|exact H].
  apply shr_1_nonneg.
Qed.

Lemma shr_fexp_nonneg prec emax m e l :
  0 <= m -> 0 <= shr_m (fst (shr_fexp prec emax m e l)).
Proof.
  intros H. unfold shr_fexp. apply shr_nonneg.
  destruct l as [|[| |]]; exact H.
Qed.

Lemma round_nearest_even_nonneg m l :
  0 <= m -> 0 <= round_nearest_even m l.
Proof.
  intros H. unfold round_nearest_even.
  destruct l as [|[| |]]; try exact H; [destruct (Z.even m)|]; lia.
Qed.

(** Rounding a non-negative mantissa gives a zero, a finite value or an
    infinity of the sign asked for. *)
Lemma binary_round_aux_sign prec emax s m e l :
  0 <= m ->
  match binary_round_aux prec emax s m e l with
  | S754_zero s' | S754_infinity s' | S754_finite s' _ _ => s' = s
  | S754_nan => False
  end.
Proof.
  intros H. unfold binary_round_aux.
  pose proof (shr_fexp_nonneg prec emax m e l H) as H1.
  destruct (shr_fexp prec emax m e l) as [mrs1 e1]. cbn [fst] in H1.
  pose proof (round_nearest_even_nonneg (shr_m mrs1)
                (loc_of_shr_record mrs1) H1) as H2.
  pose proof (shr_fexp_nonneg prec emax _ e1 loc_Exact H2) as H3.
  destruct (shr_fexp prec emax
              (round_nearest_even (shr_m mrs1) (loc_of_shr_record mrs1))
              e1 loc_Exact) as [mrs2 e2].
  cbn [fst] in H3.
  destruct (shr_m mrs2) as [|p|p]; [reflexivity | | lia].
  destruct (e2 <=? emax - prec); reflexivity.
Qed.

Lemma binary_round_sign prec emax s m e :
  match binary_round prec emax s m e with
  | S754_zero s' | S754_infinity s' | S754_finite s' _ _ => s' = s
  | S754_nan => False
  end.
Proof.
  unfold binary_round.
  destruct (shl_align m e _) as [mz ez].
  apply binary_round_aux_sign. lia.
Qed.

Lemma float_of_double_nonneg x :
  nonneg_or_pinf x = true -> nonneg_or_pinf (float_of_double x) = true.
Proof.
  destruct x as [s|s| |s m e]; cbn [float_of_double]; try (intros H; exact H).
  destruct s; [discriminate|]. intros _.
  pose proof (binary_round_sign float_prec float_emax false m e) as H.
  destruct (binary_round float_prec float_emax false m e) as [s'|s'| |s' m' e'];
    try (subst s'; reflexivity); contradiction.
Qed.

Lemma sqrtrem_nonneg n : 0 <= n -> 0 <= fst (Z.sqrtrem n).
Proof.
  intros H. pose proof (Z.sqrtrem_spec n H) as S.
  destruct (Z.sqrtrem n) as [q r]. cbn [fst]. lia.
Qed.

Lemma dsqrt_nonneg x :
  SFleb d_zero x = true -> nonneg_or_pinf (dsqrt x) = true.
Proof.
  destruct x as [s|s| |s m e]; try discriminate.
  - intros _. reflexivity.
  - destruct s; [discriminate | reflexivity].
  - destruct s; [discriminate|]. intros _.
    unfold dsqrt. cbn [SFsqrt]. unfold SFsqrt_core_binary.
    match goal with
    | |- context [Z.sqrtrem ?n] =>
        assert (Hn : 0 <= n);
        [|pose proof (sqrtrem_nonneg n Hn) as Hq;
          destruct (Z.sqrtrem n) as [q r]; cbn [fst] in Hq]
    end.
    { match goal with
      | |- 0 <= match ?t with _ => _ end =>
          destruct t as [|p|p] eqn:Et; try lia
      end.
      apply Z.shiftl_nonneg. lia. }
    match goal with
    | |- context [binary_round_aux ?p ?em false q ?e' ?l] =>
        pose proof (binary_round_aux_sign p em false q e' l Hq) as R;
        destruct (binary_round_aux p em false q e' l) as [s'|s'| |s' m' e'']
    end; try (subst s'; reflexivity); contradiction.
Qed.

(** ** The mass of a pair *)


Lemma sum_M_at_zero (L : Libm) (pt1 m1 pt2 m2 : spec_float) :
  exact_at_zero L ->
  sum_M L (mkPtEtaPhiM4D pt1 d_zero d_zero m1)
          (mkPtEtaPhiM4D pt2 d_zero d_zero m2) =
  sum_M libm_zero (mkPtEtaPhiM4D pt1 d_zero d_zero m1)
                  (mkPtEtaPhiM4D pt2 d_zero d_zero m2).
Proof.
  intros (Hcos & Hsin & Hsinh & Hcosh).
  unfold sum_M, sum_M2, coord_E, coord_E2, coord_P2, coord_P, coord_Px,
    coord_Py, coord_Pz, coord_M2.
  cbn [c_Pt c_Eta c_Phi c_M]. rewrite Hcos, Hsin, Hsinh, Hcosh.
  reflexivity.
Qed.

Lemma heavy_vector (L : Libm) :
  PtEtaPhiMVector L heavy_muon =
  mkPtEtaPhiM4D (double_of_float (float_of_Z 45)) d_zero d_zero
                (double_of_float (float_of_Z (3 * 10 ^ 38))).
Proof. reflexivity. Qed.



(** * Arguments that are not numbers *)

Lemma demo_run_completes (pair_mass : PtEtaPhiM -> PtEtaPhiM -> Float_t)
    (config : AnalysisConfig) :
  exists s, run pair_mass config demo_world = Ok s.
Proof.
  apply run_is_ok; [exact demo_world_fair|].
  rewrite (run_cutflow_sequential pair_mass config demo_world demo_world_fair).
  cbn [demo_world tree].
  assert (Hall : forall rows, (forall e, In e rows -> In e demo_rows) ->
            forallb (fun e => is_ok (eval_row pair_mass e)) rows = true).
  { intros rows Hin. apply forallb_forall. intros e He.
    destruct (demo_rows_aligned e (Hin e He)) as [Ha Hs].
    destruct (eval_row_total pair_mass e Ha Hs) as [o ->]. reflexivity. }
  destruct (maxEvents config) as [n|]; rewrite cutflow_expected.
  - rewrite Hall; [discriminate|].
    intros e He. destruct (to_unsigned_int n =? 0); [exact He|].
    eapply firstn_incl; exact He.
  - rewrite Hall; [discriminate | auto].
Qed.

(** The claim that an argument error gives exit code 1 fails for
    [-n abc]: the argument of [-n] is not a number, [atoll] turns it into
    0, the limit 0 lets every row through, and the program ends with
    code 0. *)
Lemma nonnumeric_limit_exits_0 :
  malformed_limit not_a_number_line /\
  parseArgs c_atoll not_a_number_line = Return (limit_config 0) /\
  (forall pair_mass,
     main pair_mass c_atoll not_a_number_line demo_world = Ok 0) /\
  entries (summary_of (run zero_mass (limit_config 0) demo_world)) =
    demo_rows.
Proof.
  split; [|split; [|split]].
  - exists (mkGetopt (chr "n") "abc"). repeat split. left. reflexivity.
  - reflexivity.
  - intros pair_mass. unfold main.
    change (parseArgs c_atoll not_a_number_line)
      with (Return (limit_config 0)).
    destruct (demo_run_completes pair_mass (limit_config 0)) as [s ->].
    reflexivity.
  - reflexivity.
Qed.
